(** * nuxt-use-async-data-wrapper: a shallow embedding of [useAsyncDataWrapper]

    The repository holds two versions of the one function the package
    exports: [src/index.ts], which reads the member names off the direct
    prototype of the source object, and the refactored one
    ([getFunctionNames], [getWrappedFunction], [getWrappedFunctionWithArgs],
    [getWrapedFunctionWithoutArgs]), which walks the prototype chain.  Both
    are embedded below, each in a module of its own, over one model of the
    JavaScript values they touch. *)

From Stdlib Require Import ZArith Ascii String List Lia.
From Stdlib Require Import DecimalString DecimalPos DecimalZ.
From stdpp Require Import base option list strings gmap fin_maps.

#[local] Set Warnings "-register-all".

Local Open Scope Z_scope.
Local Open Scope string_scope.

(** ** Data values

    The values that travel as arguments of the wrapped functions and as
    their results.  [VNum] carries an integer Number in the safe range
    (|n| <= 2^53 - 1, where the decimal rendering below is the one
    JavaScript prints; [VNum 0] is [+0]); a [VObj] lists its own enumerable
    string-keyed properties in enumeration order.  [representable] below
    tells the values inside this range; what is stated about a serialized
    value is stated for those. *)
Inductive jsval : Type :=
| VUndefined
| VNull
| VBool (b : bool)
| VNum (n : Z)
| VStr (s : string)
| VArr (items : list jsval)
| VObj (fields : list (string * jsval)).

(** ** [JSON.stringify] *)

Definition dquote : ascii := ascii_of_N 34.
Definition backslash : ascii := ascii_of_N 92.

Definition hex_digit (n : N) : ascii :=
  if (n <? 10)%N then ascii_of_N (48 + n) else ascii_of_N (87 + n).

(** One code unit of QuoteJSONString: the two-character escapes, [\u00xx]
    for the other control characters, the character itself otherwise. *)
Definition escape_char (c : ascii) : string :=
  let n := N_of_ascii c in
  if (n =? 34)%N then String backslash (String dquote EmptyString)
  else if (n =? 92)%N then String backslash (String backslash EmptyString)
  else if (n =? 8)%N then String backslash "b"
  else if (n =? 12)%N then String backslash "f"
  else if (n =? 10)%N then String backslash "n"
  else if (n =? 13)%N then String backslash "r"
  else if (n =? 9)%N then String backslash "t"
  else if (n <? 32)%N then
    String backslash
      ("u00" +:+ String (hex_digit (n / 16)) (String (hex_digit (n mod 16)) EmptyString))
  else String c EmptyString.

Fixpoint escape_string (s : string) : string :=
  match s with
  | EmptyString => EmptyString
  | String c rest => escape_char c +:+ escape_string rest
  end.

Definition quoteJSONString (s : string) : string :=
  String dquote (escape_string s +:+ String dquote EmptyString).

(** Number::toString on a safe integer: decimal digits, a leading minus
    sign for the negative ones.  (From 1e21 on JavaScript prints an
    exponent, and beyond 2^53 not every integer is a Number: see
    [safe_integer].) *)
Definition number_to_string (n : Z) : string :=
  NilEmpty.string_of_int (Z.to_int n).

Fixpoint join (sep : string) (parts : list string) : string :=
  match parts with
  | [] => EmptyString
  | [p] => p
  | p :: rest => p +:+ sep +:+ join sep rest
  end.

(** SerializeJSONProperty: [None] is the [undefined] that
    [JSON.stringify] gives for a value with no JSON form.  In an array such
    an element is written [null]; in an object the property is left out. *)
Fixpoint serialize (v : jsval) : option string :=
  match v with
  | VUndefined => None
  | VNull => Some "null"
  | VBool true => Some "true"
  | VBool false => Some "false"
  | VNum n => Some (number_to_string n)
  | VStr s => Some (quoteJSONString s)
  | VArr items =>
      Some ("[" +:+
            join "," (map (fun x => default "null" (serialize x)) items)
            +:+ "]")
  | VObj fields =>
      Some ("{" +:+
            join "," (flat_map
                        (fun kv => match serialize (snd kv) with
                                   | Some s => [quoteJSONString (fst kv) +:+ ":" +:+ s]
                                   | None => []
                                   end) fields)
            +:+ "}")
  end.

(** [JSON.stringify(a)] for an array [a] always is a string. *)
Definition JSON_stringify (items : list jsval) : string :=
  default "undefined" (serialize (VArr items)).

(** ** Results, promises and functions *)

(** What a JavaScript expression can raise: a runtime [TypeError], or a
    value thrown by user code. *)
Inductive exn : Type :=
| TypeError (msg : string)
| Thrown (v : jsval).

Inductive result (A : Type) : Type :=
| Ok (a : A)
| Throw (e : exn).
Arguments Ok {A} a.
Arguments Throw {A} e.

#[export] Instance result_ret : MRet result := fun _ a => Ok a.
#[export] Instance result_bind : MBind result := fun _ _ k c =>
  match c with
  | Ok a => k a
  | Throw e => Throw e
  end.

(** The reactive state of the application: the current value of every
    reactive source, by identifier.  An [argsSupplier] reads it. *)
Definition store : Type := nat -> jsval.

(** A deferred value, by its settlement. *)
Inductive promise : Type :=
| Pending
| Fulfilled (v : jsval)
| Rejected (reason : jsval).

(** What a call of a source function returns: a Promise, or a plain value
    ([instanceof Promise] tells them apart). *)
Inductive retval : Type :=
| RPlain (v : jsval)
| RPromise (p : promise).

(** A function member.  [fn_length] is its [length] property, the number of
    declared parameters; [fn_call] is what a call does with [this] set to
    the source object, which is how both versions call it
    ([obj[key].bind(obj)]). *)
Record func : Type := mkFunc {
  fn_length : nat;
  fn_call : store -> list jsval -> result retval
}.

(** A property of a source object: a data property holding a value or a
    function.  Accessor properties (getters), whose read runs code, are not
    in the model: the source objects below are those made of data
    properties. *)
Inductive member : Type :=
| MData (v : jsval)
| MFun (f : func).

(** ** Objects and their prototype chain

    An object reference, or [Null].  [ObjectPrototype own] is the realm's
    [Object.prototype] (the one object [=== Object.prototype]) with its
    current own properties; its prototype is [null].  [Obj own proto] is any
    other object: its own properties in [Object.getOwnPropertyNames] order,
    and its prototype. *)
Inductive jsobj : Type :=
| Null
| ObjectPrototype (own : list (string * member))
| Obj (own : list (string * member)) (proto : jsobj).

Fixpoint assoc {A : Type} (key : string) (l : list (string * A)) : option A :=
  match l with
  | [] => None
  | (k, a) :: rest => if String.eqb k key then Some a else assoc key rest
  end.

(** Property read [o[key]] along the chain; [None] is [undefined]. *)
Fixpoint lookup_chain (o : jsobj) (key : string) : option member :=
  match o with
  | Null => None
  | ObjectPrototype own => assoc key own
  | Obj own proto =>
      match assoc key own with
      | Some m => Some m
      | None => lookup_chain proto key
      end
  end.

Definition get (o : jsobj) (key : string) : result (option member) :=
  match o with
  | Null => Throw (TypeError "Cannot read properties of null")
  | _ => Ok (lookup_chain o key)
  end.

Definition getPrototypeOf (o : jsobj) : result jsobj :=
  match o with
  | Null => Throw (TypeError "Cannot convert undefined or null to object")
  | ObjectPrototype _ => Ok Null
  | Obj _ proto => Ok proto
  end.

Definition getOwnPropertyNames (o : jsobj) : result (list string) :=
  match o with
  | Null => Throw (TypeError "Cannot convert undefined or null to object")
  | ObjectPrototype own => Ok (map fst own)
  | Obj own _ => Ok (map fst own)
  end.

(** [typeof x === 'function'] *)
Definition typeof_function (x : option member) : bool :=
  match x with
  | Some (MFun _) => true
  | _ => false
  end.

(** [x.bind(obj)], for functions whose [bind] is the one of
    [Function.prototype]: the bound function has the length and the
    behaviour of [x]; a value that is not a function has no callable
    [bind]. *)
Definition bind_to_source (x : option member) : result func :=
  match x with
  | Some (MFun f) => Ok f
  | Some (MData _) => Throw (TypeError "bind is not a function")
  | None => Throw (TypeError "Cannot read properties of undefined (reading 'bind')")
  end.

(** ** The reactive-fetch primitive's side *)

(** An [argsSupplier]: called with no argument, it reads the reactive state
    and returns the argument array, or throws. *)
Definition supplier : Type := store -> result (list jsval).

Inductive watch_source : Type :=
| ArgsRef (argsSupplier : supplier)   (* [computed(() => argsSupplier())] *)
| CallerRef (id : nat).               (* a reactive source of the caller *)

(** The value of one entry of an options object. *)
Inductive optval : Type :=
| OptData (v : jsval)                 (* [lazy: true], [server: false], ... *)
| OptFn (id : nat)                    (* a callback: [default], [transform], ... *)
| OptWatch (sources : list watch_source).

(** One positional argument of a wrapper call. *)
Inductive arg : Type :=
| ArgUndefined
| ArgFun (f : supplier)
| ArgOptions (o : gmap string optval).

(** [args[i]] *)
Definition arg_at (args : list arg) (i : nat) : arg :=
  default ArgUndefined (args !! i).

(** The own enumerable properties that [...options] copies: those of an
    options object; none for [undefined] and none for a function. *)
Definition own_entries (options : arg) : gmap string optval :=
  match options with
  | ArgOptions o => o
  | _ => ∅
  end.

(** The object literal [{ e1, ..., en, ...options }]: the entries
    [e1 ... en] are written first, then every own entry of [options] is
    written over the object built so far (CopyDataProperties). *)
Definition spread_after (literal : gmap string optval) (options : arg)
  : gmap string optval :=
  map_fold (fun k v acc => <[k := v]> acc) literal (own_entries options).

(** One call [useAsyncData(key, handler, config)].  The wrapper returns
    whatever the primitive returns for it. *)
Record fetch_call : Type := mkFetch {
  fc_key : string;
  fc_handler : store -> result promise;
  fc_config : gmap string optval
}.

(** [result instanceof Promise ? result : Promise.resolve(result)] *)
Definition ensure_promise (r : retval) : promise :=
  match r with
  | RPromise p => p
  | RPlain v => Fulfilled v
  end.

(** ** Allocation

    Every evaluation of an object literal or of an arrow function makes a
    new object; [M] threads the next unused identity and stops at the
    first exception. *)
Definition M (A : Type) : Type := nat -> result (A * nat).

#[export] Instance M_ret : MRet M := fun _ a next => Ok (a, next).
#[export] Instance M_bind : MBind M := fun _ _ k c next =>
  match c next with
  | Ok (a, next') => k a next'
  | Throw e => Throw e
  end.

Definition fresh : M nat := fun next => Ok (next, S next).

Definition lift {A : Type} (r : result A) : M A := fun next =>
  match r with
  | Ok a => Ok (a, next)
  | Throw e => Throw e
  end.

(** [for (const x of xs) { acc = body(acc, x) }] *)
Fixpoint for_of {A B : Type} (xs : list A) (body : B -> A -> M B) (acc : B) : M B :=
  match xs with
  | [] => mret acc
  | x :: rest => acc' ← body acc x; for_of rest body acc'
  end.

(** A wrapper function: its identity, and what a call [w(...args)] does in
    a given reactive state. *)
Record wrapper : Type := mkWrapper {
  w_id : nat;
  w_call : list arg -> store -> result fetch_call
}.

(** The wrapped object [composable]. *)
Record wrapped : Type := mkWrapped {
  wr_id : nat;
  wr_members : gmap string wrapper
}.

(** [Set.prototype.add] on a set kept in insertion order. *)
Definition Set_add (key : string) (s : list string) : list string :=
  if bool_decide (key ∈ s) then s else s ++ [key].

(** ** The refactored version: [getFunctionNames] and the three helpers *)
Module Refactored.

(** The body of the [for (const key of keys)] loop. *)
Definition collect (currentObj : jsobj) (functionNameSet : list string)
    (key : string) : list string :=
  if negb (String.eqb key "constructor")
     && typeof_function (lookup_chain currentObj key)
  then Set_add key functionNameSet
  else functionNameSet.

(** The [while (currentObj && currentObj !== Object.prototype)] loop. *)
Fixpoint walk (functionNameSet : list string) (currentObj : jsobj)
  : list string :=
  match currentObj with
  | Null => functionNameSet
  | ObjectPrototype _ => functionNameSet
  | Obj own proto =>
      walk (fold_left (collect currentObj) (map fst own) functionNameSet)
           proto
  end.

Definition getFunctionNames (obj : jsobj) : list string :=
  walk [] obj.

Definition getWrappedFunctionWithArgs (functionName : string)
    (originalFunction : func) (argsSupplier : supplier) (options : arg)
    (st : store) : result fetch_call :=
  (* [dataKeyRef.value] reads [argsRef.value], which calls [argsSupplier] *)
  args ← argsSupplier st;
  mret {| fc_key := functionName +:+ "-" +:+ JSON_stringify args;
          fc_handler := fun st' =>
            args' ← argsSupplier st';
            r ← fn_call originalFunction st' args';
            mret (ensure_promise r);
          fc_config :=
            spread_after {[ "watch" := OptWatch [ArgsRef argsSupplier] ]}
                         options |}.

Definition getWrapedFunctionWithoutArgs (functionName : string)
    (originalFunction : func) (options : arg)
    (st : store) : result fetch_call :=
  mret {| fc_key := functionName;
          fc_handler := fun st' =>
            r ← fn_call originalFunction st' [];
            mret (ensure_promise r);
          fc_config := spread_after ∅ options |}.

Definition getWrappedFunction (functionName : string)
    (originalFunction : func) (args : list arg) (st : store)
  : result fetch_call :=
  match arg_at args 0 with
  | ArgFun argsSupplier =>
      let options := arg_at args 1 in
      getWrappedFunctionWithArgs functionName originalFunction
                                 argsSupplier options st
  | _ =>
      let options := arg_at args 0 in
      getWrapedFunctionWithoutArgs functionName originalFunction options st
  end.

(** The body of the [for (const functionName of functionNames)] loop.
    [composable] is kept as the map from the names assigned to the last
    value assigned: what [composable[functionName]] reads afterwards. *)
Definition wrap_one (obj : jsobj) (composable : gmap string wrapper)
    (functionName : string) : M (gmap string wrapper) :=
  target ← lift (get obj functionName);
  originalFunction ← lift (bind_to_source target);
  id ← fresh;
  let wrappedFunction :=
    {| w_id := id;
       w_call := getWrappedFunction functionName originalFunction |} in
  mret (<[functionName := wrappedFunction]> composable).

Definition useAsyncDataWrapper (obj : jsobj) : M wrapped :=
  id ← fresh;
  let functionNames := getFunctionNames obj in
  composable ← for_of functionNames (wrap_one obj) ∅;
  mret {| wr_id := id; wr_members := composable |}.

End Refactored.

(** ** [src/index.ts] *)
Module IndexTs.

(** The arrow function stored under [key]. *)
Definition wrapped_function (key : string) (originalFunction : func)
    (args : list arg) (st : store) : result fetch_call :=
  let '(argsSupplier, options) :=
    match arg_at args 0 with
    | ArgFun f => (Some f, arg_at args 1)
    | _ => (None, arg_at args 0)
    end in
  match argsSupplier with
  | Some argsSupplier =>
      args ← argsSupplier st;
      mret {| fc_key := key +:+ "-" +:+ JSON_stringify args;
              fc_handler := fun st' =>
                args' ← argsSupplier st';
                r ← fn_call originalFunction st' args';
                mret (ensure_promise r);
              fc_config :=
                spread_after {[ "watch" := OptWatch [ArgsRef argsSupplier] ]}
                             options |}
  | None =>
      mret {| fc_key := key;
              fc_handler := fun st' =>
                r ← fn_call originalFunction st' [];
                mret (ensure_promise r);
              fc_config := spread_after ∅ options |}
  end.

(** The predicate of [.filter(...)]: [obj[key]] is read on the source
    object itself. *)
Definition is_function_name (obj : jsobj) (key : string) : bool :=
  negb (String.eqb key "constructor")
  && typeof_function (lookup_chain obj key).

(** The body of the [for (const key of functionNames)] loop. *)
Definition wrap_one (obj : jsobj) (composable : gmap string wrapper)
    (key : string) : M (gmap string wrapper) :=
  target ← lift (get obj key);
  originalFunction ← lift (bind_to_source target);
  id ← fresh;
  mret (<[key := {| w_id := id;
                    w_call := wrapped_function key originalFunction |}]>
          composable).

Definition functionNames (obj : jsobj) : result (list string) :=
  proto ← getPrototypeOf obj;
  names ← getOwnPropertyNames proto;
  mret (List.filter (is_function_name obj) names).

Definition useAsyncDataWrapper (obj : jsobj) : M wrapped :=
  id ← fresh;
  functionNames ← lift (functionNames obj);
  composable ← for_of functionNames (wrap_one obj) ∅;
  mret {| wr_id := id; wr_members := composable |}.

End IndexTs.

(** ** Sample objects *)

Definition async_fn (arity : nat) (v : jsval) : func :=
  {| fn_length := arity;
     fn_call := fun _ _ => Ok (RPromise (Fulfilled v)) |}.

(** A builtin method of the given length; no property below runs one, and
    the stub returns [undefined]. *)
Definition builtin (arity : nat) : member :=
  MFun {| fn_length := arity; fn_call := fun _ _ => Ok (RPlain VUndefined) |}.

(** [Object.prototype] with its twelve own properties; [__proto__] is read
    as an object. *)
Definition sample_root : jsobj :=
  ObjectPrototype
    [("constructor", builtin 1);
     ("__defineGetter__", builtin 2);
     ("__defineSetter__", builtin 2);
     ("hasOwnProperty", builtin 1);
     ("__lookupGetter__", builtin 1);
     ("__lookupSetter__", builtin 1);
     ("isPrototypeOf", builtin 1);
     ("propertyIsEnumerable", builtin 1);
     ("toString", builtin 0);
     ("valueOf", builtin 0);
     ("__proto__", MData (VObj []));
     ("toLocaleString", builtin 0)].

(** [class Base { a() {...} }], [class Derived extends Base { b() {...} }],
    [new Derived()]. *)
Definition Base_prototype : jsobj :=
  Obj [("constructor", MFun (async_fn 0 VUndefined));
       ("a", MFun (async_fn 0 (VNum 1)))] sample_root.
Definition Derived_prototype : jsobj :=
  Obj [("constructor", MFun (async_fn 0 VUndefined));
       ("b", MFun (async_fn 0 (VNum 2)))] Base_prototype.
Definition new_Derived : jsobj := Obj [] Derived_prototype.

Definition shadowed_a : jsobj :=
  Obj [("a", MData (VNum 5))]
      (Obj [("a", MFun (async_fn 0 (VNum 1)))] sample_root).

(** [Object.create(null)] with one data property. *)
Definition no_prototype : jsobj := Obj [("x", MData (VNum 1))] Null.

(** [{ x: 1 }] *)
Definition data_only : jsobj := Obj [("x", MData (VNum 1))] sample_root.

Definition fetchData : func := async_fn 0 (VArr [VNum 1; VNum 2]).
Definition getItem : func :=
  {| fn_length := 1;
     fn_call := fun _ args => Ok (RPlain (VArr args)) |}.

(** [class Service { fetchData() {...}; getItem(id) {...} }] with a data
    field, [new Service()]. *)
Definition Service_prototype : jsobj :=
  Obj [("constructor", MFun (async_fn 0 VUndefined));
       ("fetchData", MFun fetchData);
       ("getItem", MFun getItem)] sample_root.
Definition new_Service : jsobj :=
  Obj [("baseUrl", MData (VStr "/api"))] Service_prototype.

(** The object literal of the documentation:
    [{ async fetchData() {...}, async getItem(id) {...} }]. *)
Definition literal_service : jsobj :=
  Obj [("fetchData", MFun fetchData); ("getItem", MFun getItem)] sample_root.

Definition st0 : store := fun _ => VUndefined.
Definition st_id (v : jsval) : store := fun _ => v.

(** [() => [5]], [() => [6]], [() => [id.value]], [() => { throw 'boom' }] *)
Definition supply_5 : supplier := fun _ => Ok [VNum 5].
Definition supply_6 : supplier := fun _ => Ok [VNum 6].
Definition supply_ref : supplier := fun st => Ok [st 0%nat].
Definition supply_throw : supplier := fun _ => Throw (Thrown (VStr "boom")).

(** ** Vocabulary of the properties *)

(** The two call shapes of a wrapper. *)
Inductive variant : Type := Simple | Parameterized.

(** The branch a call takes: the test [typeof args[0] === 'function']. *)
Definition variant_of_call (args : list arg) : variant :=
  match arg_at args 0 with
  | ArgFun _ => Parameterized
  | _ => Simple
  end.

(** The classification by declared parameter count: zero declared
    parameters is the simple variant, one or more the parameterized one. *)
Definition declared_variant (f : func) : variant :=
  if Nat.eqb (fn_length f) 0 then Simple else Parameterized.

(** The key of the registration a wrapper call makes, if it makes one. *)
Definition registered_key (r : result fetch_call) : option string :=
  match r with
  | Ok c => Some (fc_key c)
  | Throw _ => None
  end.

(** [key] names a function-valued own property of [level]. *)
Definition own_function (own : list (string * member)) (key : string) : bool :=
  bool_decide (key ∈ map fst own) && typeof_function (assoc key own).

(** Some object of the chain of [o], below [Object.prototype], has a
    function-valued own property [key]. *)
Fixpoint declares (o : jsobj) (key : string) : Prop :=
  match o with
  | Null => False
  | ObjectPrototype _ => False
  | Obj own proto => own_function own key = true ∨ declares proto key
  end.

(** A member seen from the source object is a function wherever some
    object of the chain declares it as one: no data property shadows an
    inherited method. *)
Definition no_shadowed_method (o : jsobj) : Prop :=
  ∀ key, key ≠ "constructor" → declares o key →
         typeof_function (lookup_chain o key) = true.

Fixpoint comma_free (s : string) : bool :=
  match s with
  | EmptyString => true
  | String c rest => negb (Ascii.eqb c ",") && comma_free rest
  end.

(** What follows a part in a joined string: nothing, or a comma. *)
Definition ends_part (s : string) : Prop :=
  s = EmptyString ∨ ∃ rest, s = String "," rest.

Definition after_part (parts : list string) : string :=
  match parts with
  | [] => EmptyString
  | _ => "," +:+ join "," parts
  end.

(** The call of the original function that the handler makes when the
    primitive runs it in the reactive state [st']: with no argument in the
    simple variant, with the current array of the argsSupplier otherwise. *)
Definition original_result (f : func) (args : list arg) (st' : store)
  : result retval :=
  match arg_at args 0 with
  | ArgFun s => a ← s st'; fn_call f st' a
  | _ => fn_call f st' []
  end.

Definition caller_options : gmap string optval :=
  {[ "watch" := OptWatch [CallerRef 7]; "lazy" := OptData (VBool true) ]}.

(** Both loop bodies follow one scheme; they differ in the function [mk]
    that makes the wrapper of a name. *)
Definition wrap_with
    (mk : string → func → list arg → store → result fetch_call)
    (obj : jsobj) (members : gmap string wrapper) (key : string)
  : M (gmap string wrapper) :=
  target ← lift (get obj key);
  originalFunction ← lift (bind_to_source target);
  id ← fresh;
  mret (<[key := {| w_id := id; w_call := mk key originalFunction |}]> members).

(** The wrapped object built from a list of names. *)
Definition build
    (mk : string → func → list arg → store → result fetch_call)
    (obj : jsobj) (names : list string) : M wrapped :=
  id ← fresh;
  members ← for_of names (wrap_with mk obj) ∅;
  mret {| wr_id := id; wr_members := members |}.

(** Two wrapped objects that differ in identity only: other objects, other
    wrapper functions, under the same names, and every pair of wrappers
    of one name behaves alike. *)
Definition equivalent_not_identical (w1 w2 : wrapped) : Prop :=
  wr_id w1 ≠ wr_id w2
  ∧ dom (wr_members w1) = dom (wr_members w2)
  ∧ ∀ name wf1, wr_members w1 !! name = Some wf1 →
      ∃ wf2, wr_members w2 !! name = Some wf2
             ∧ w_id wf1 ≠ w_id wf2
             ∧ ∀ args st,
                 w_call wf1 args st = w_call wf2 args st
                 ∧ registered_key (w_call wf1 args st)
                   = registered_key (w_call wf2 args st).

(** The source object is an instance whose methods all sit on its direct
    prototype, an ordinary object other than [Object.prototype]: the own
    properties of the instance are data that shadow no property of the
    prototype, the prototype's own names are distinct, and nothing above
    the prototype adds a name. *)
Definition methods_on_direct_prototype (obj : jsobj) : bool :=
  match obj with
  | Obj own (Obj pown anc) =>
      forallb (fun kv => negb (typeof_function (Some (snd kv)))) own
      && forallb (fun key => negb (bool_decide (key ∈ map fst pown)))
                 (map fst own)
      && bool_decide (NoDup (map fst pown))
      && bool_decide (Refactored.getFunctionNames anc = [])
  | _ => false
  end.

(** The two versions agree on [obj]: both complete, with the same names,
    and the wrappers of one name do the same on every call. *)
Definition versions_agree_on (obj : jsobj) (n : nat) : Prop :=
  ∃ w1 w2 n',
    IndexTs.useAsyncDataWrapper obj n = Ok (w1, n')
    ∧ Refactored.useAsyncDataWrapper obj n = Ok (w2, n')
    ∧ dom (wr_members w1) = dom (wr_members w2)
    ∧ ∀ name wf1 wf2,
        wr_members w1 !! name = Some wf1 →
        wr_members w2 !! name = Some wf2 →
        ∀ args st, w_call wf1 args st = w_call wf2 args st.

(** The wrapped object has a wrapper under [name]. *)
Definition has_member (r : result (wrapped * nat)) (name : string) : bool :=
  match r with
  | Ok (w, _) => bool_decide (is_Some (wr_members w !! name))
  | Throw _ => false
  end.

(** The key under which the call [wrapped[name](...args)] registers. *)
Definition key_of_member_call (r : result (wrapped * nat)) (name : string)
    (args : list arg) (st : store) : option string :=
  match r with
  | Ok (w, _) => wf ← wr_members w !! name; registered_key (w_call wf args st)
  | Throw _ => None
  end.

(** ** Vocabulary of the further properties *)

(** [key] is not in [s], as a test. *)
Definition not_in (s : list string) (key : string) : bool :=
  negb (bool_decide (key ∈ s)).

(** The names, other than [constructor], of the function-valued own
    properties of one object, in own-property order. *)
Definition own_function_names (own : list (string * member)) : list string :=
  List.filter
    (fun key => negb (String.eqb key "constructor")
                && typeof_function (assoc key own))
    (map fst own).

(** The same chain, ending in an [Object.prototype] with other own
    properties. *)
Fixpoint with_root (root : list (string * member)) (o : jsobj) : jsobj :=
  match o with
  | Null => Null
  | ObjectPrototype _ => ObjectPrototype root
  | Obj own proto => Obj own (with_root root proto)
  end.

(** A function of the same length that throws whenever it is called. *)
Definition inert (f : func) : func :=
  {| fn_length := fn_length f;
     fn_call := fun _ _ => Throw (TypeError "the member was called") |}.

Fixpoint dash_free (s : string) : bool :=
  match s with
  | EmptyString => true
  | String c rest => negb (Ascii.eqb c "-") && dash_free rest
  end.

(** [class Child extends Base { a() {...}; c() {...} }], [new Child()]:
    [Child] overrides [a]. *)
Definition Child_prototype : jsobj :=
  Obj [("constructor", MFun (async_fn 0 VUndefined));
       ("a", MFun (async_fn 0 (VNum 3)));
       ("c", MFun (async_fn 0 (VNum 4)))] Base_prototype.
Definition new_Child : jsobj := Obj [] Child_prototype.

(** What a wrapper call hands to the primitive besides the handler: the
    key and the configuration; or the exception it ends with. *)
Definition registration (r : result fetch_call)
  : result (string * gmap string optval) :=
  match r with
  | Ok c => Ok (fc_key c, fc_config c)
  | Throw e => Throw e
  end.

(** [{ f() {...} }] over an [Object.prototype] cut down to two properties. *)
Definition literal_f : jsobj :=
  Obj [("f", MFun fetchData)]
      (ObjectPrototype [("constructor", builtin 1); ("toString", builtin 0)]).

(** ** The range of the value model *)

(** [Number.isSafeInteger] *)
Definition safe_integer (n : Z) : bool :=
  (Z.abs n <=? 9007199254740991)%Z.

Fixpoint ascii_text (s : string) : bool :=
  match s with
  | EmptyString => true
  | String c rest => (N_of_ascii c <? 128)%N && ascii_text rest
  end.

Fixpoint all_digits (s : string) : bool :=
  match s with
  | EmptyString => true
  | String c rest =>
      (48 <=? N_of_ascii c)%N && (N_of_ascii c <=? 57)%N && all_digits rest
  end.

(** A property name written with digits only: such names are enumerated
    before the others, whatever the order of creation. *)
Definition digits_only (s : string) : bool :=
  match s with
  | EmptyString => false
  | String _ _ => all_digits s
  end.

(** The values that [jsval] models exactly, with [serialize] printing what
    [JSON.stringify] prints: Numbers that are safe integers, strings of
    ASCII characters, objects with distinct property names none of which is
    written with digits only. *)
Fixpoint representable (v : jsval) : bool :=
  match v with
  | VUndefined => true
  | VNull => true
  | VBool _ => true
  | VNum n => safe_integer n
  | VStr s => ascii_text s
  | VArr items => forallb representable items
  | VObj fields =>
      forallb (fun kv => ascii_text (fst kv) && negb (digits_only (fst kv))
                         && representable (snd kv)) fields
      && bool_decide (NoDup (map fst fields))
  end.

(** Every name found by [getFunctionNames] is a function when read on the
    source object: no property that is not a function shadows a method. *)
Definition methods_unshadowed (obj : jsobj) : bool :=
  forallb (fun key => typeof_function (lookup_chain obj key))
          (Refactored.getFunctionNames obj).

(** An instance with a method [f], and a data property [a] that shadows
    the method [a] of its prototype. *)
Definition shadowed_beside_f : jsobj :=
  Obj [("a", MData (VNum 5))]
      (Obj [("constructor", MFun (async_fn 0 VUndefined));
            ("a", MFun (async_fn 0 (VNum 1)));
            ("f", MFun fetchData)] sample_root).

(** * Properties *)

(** ** Serialization *)

Example stringify_5 : JSON_stringify [VNum 5] = "[5]".
Proof. reflexivity. Qed.

Example stringify_mixed :
  JSON_stringify [VStr "a"; VUndefined; VObj [("p", VNum (-3)); ("q", VUndefined)]]
  = String "[" (String dquote ("a" +:+ String dquote
      (",null,{" +:+ String dquote ("p" +:+ String dquote ":-3}]")))).
Proof. reflexivity. Qed.

(** ** The configuration and the dispatch of one call *)

Lemma spread_after_union (literal : gmap string optval) (options : arg) :
  spread_after literal options = own_entries options ∪ literal.
Proof.
  unfold spread_after.
  induction (own_entries options) as [|k v o Hk Hfirst IH]
    using map_first_key_ind.
  - rewrite map_fold_empty. by rewrite (left_id_L ∅ (∪)).
  - rewrite map_fold_insert_first_key by done.
    rewrite IH. by rewrite insert_union_l.
Qed.

Lemma spread_after_lookup (literal : gmap string optval) (options : arg)
    (k : string) :
  spread_after literal options !! k =
    match own_entries options !! k with
    | Some v => Some v
    | None => literal !! k
    end.
Proof.
  rewrite spread_after_union, lookup_union.
  destruct (own_entries options !! k), (literal !! k); reflexivity.
Qed.

(** The arrow function of [src/index.ts] and [getWrappedFunction] do the
    same on every call. *)
Lemma wrapped_function_same (key : string) (f : func) (args : list arg)
    (st : store) :
  IndexTs.wrapped_function key f args st
  = Refactored.getWrappedFunction key f args st.
Proof.
  unfold IndexTs.wrapped_function, Refactored.getWrappedFunction.
  destruct (arg_at args 0); reflexivity.
Qed.

Lemma call_without_supplier (name : string) (f : func) (args : list arg)
    (st : store) :
  variant_of_call args = Simple →
  Refactored.getWrappedFunction name f args st
  = Refactored.getWrapedFunctionWithoutArgs name f (arg_at args 0) st.
Proof.
  unfold variant_of_call, Refactored.getWrappedFunction.
  destruct (arg_at args 0); intros H; try reflexivity; discriminate.
Qed.

Lemma call_with_supplier (name : string) (f : func) (args : list arg)
    (st : store) (s : supplier) :
  arg_at args 0 = ArgFun s →
  Refactored.getWrappedFunction name f args st
  = Refactored.getWrappedFunctionWithArgs name f s (arg_at args 1) st.
Proof.
  unfold Refactored.getWrappedFunction. intros ->. reflexivity.
Qed.

(** C1 (as the code has it): which variant a call runs is decided at that
    call, by whether its first argument is a function; the declared
    parameter count of the original function [f] plays no part.  A call
    whose first argument is not a function is the simple variant: it
    registers under the bare name.  A call whose first argument is a
    function [s] is the parameterized variant with [s] as argsSupplier.
    Both versions of the wrapper agree. *)
Theorem variant_decided_at_each_call (name : string) (f : func)
    (args : list arg) (st : store) :
  IndexTs.wrapped_function name f args st
  = Refactored.getWrappedFunction name f args st
  ∧ match variant_of_call args with
    | Simple =>
        Refactored.getWrappedFunction name f args st
        = Refactored.getWrapedFunctionWithoutArgs name f (arg_at args 0) st
        ∧ registered_key (Refactored.getWrappedFunction name f args st)
          = Some name
    | Parameterized =>
        ∃ s, arg_at args 0 = ArgFun s
             ∧ Refactored.getWrappedFunction name f args st
               = Refactored.getWrappedFunctionWithArgs
                   name f s (arg_at args 1) st
    end.
Proof.
  split; [apply wrapped_function_same|].
  destruct (variant_of_call args) eqn:Hv.
  - rewrite call_without_supplier by assumption. split; reflexivity.
  - unfold variant_of_call in Hv.
    destruct (arg_at args 0) as [| s |] eqn:Ha; try discriminate.
    exists s. split; [reflexivity|]. by apply call_with_supplier.
Qed.

(** C1, counterexample: [getItem] declares one parameter, yet the call
    [w.getItem()] runs the simple variant and registers under the bare
    name; [fetchData] declares none, yet [w.fetchData(() => [5])] runs the
    parameterized variant. *)
Lemma declared_arity_does_not_classify :
  declared_variant getItem = Parameterized
  ∧ variant_of_call [] ≠ declared_variant getItem
  ∧ registered_key (Refactored.getWrappedFunction "getItem" getItem [] st0)
    = Some "getItem"
  ∧ registered_key (IndexTs.wrapped_function "getItem" getItem [] st0)
    = Some "getItem"
  ∧ declared_variant fetchData = Simple
  ∧ variant_of_call [ArgFun supply_5] ≠ declared_variant fetchData
  ∧ registered_key
      (Refactored.getWrappedFunction "fetchData" fetchData [ArgFun supply_5] st0)
    = Some "fetchData-[5]"
  ∧ registered_key
      (IndexTs.wrapped_function "fetchData" fetchData [ArgFun supply_5] st0)
    = Some "fetchData-[5]"
  ∧ key_of_member_call (Refactored.useAsyncDataWrapper new_Service 0%nat)
      "getItem" [] st0 = Some "getItem"
  ∧ key_of_member_call (IndexTs.useAsyncDataWrapper new_Service 0%nat)
      "getItem" [] st0 = Some "getItem"
  ∧ key_of_member_call (Refactored.useAsyncDataWrapper new_Service 0%nat)
      "getItem" [ArgFun supply_5] st0 = Some "getItem-[5]"
  ∧ key_of_member_call (Refactored.useAsyncDataWrapper new_Service 0%nat)
      "fetchData" [ArgFun supply_5] st0 = Some "fetchData-[5]".
Proof.
  repeat split; try discriminate; try reflexivity; vm_compute; reflexivity.
Qed.

(** ** Serialization of integer arrays *)

#[local] Arguments String.append !s1 s2 : simpl nomatch.

Lemma number_to_string_inj (m n : Z) :
  number_to_string m = number_to_string n → m = n.
Proof.
  unfold number_to_string. intros H.
  apply DecimalZ.to_int_inj.
  assert (Some (Z.to_int m) = Some (Z.to_int n)) as [= E]; [|exact E].
  rewrite <- !NilEmpty.isi. by rewrite H.
Qed.

Lemma string_of_uint_comma_free (d : Decimal.uint) :
  comma_free (NilEmpty.string_of_uint d) = true.
Proof. induction d; simpl; auto. Qed.

Lemma number_to_string_comma_free (n : Z) :
  comma_free (number_to_string n) = true.
Proof.
  unfold number_to_string.
  destruct (Z.to_int n); simpl; apply string_of_uint_comma_free.
Qed.

Lemma number_to_string_nonempty (n : Z) : number_to_string n ≠ EmptyString.
Proof.
  unfold number_to_string. destruct n as [|p|p]; simpl; try discriminate.
  pose proof (DecimalPos.Unsigned.to_uint_nonnil p) as Hp.
  destruct (Pos.to_uint p); simpl; congruence.
Qed.

Lemma part_boundary (p q r r' : string) :
  comma_free p = true → comma_free q = true →
  ends_part r → ends_part r' →
  p +:+ r = q +:+ r' → p = q ∧ r = r'.
Proof.
  revert q. induction p as [|c p IH]; intros [|d q] Hp Hq Hr Hr'; simpl.
  - auto.
  - intros ->. destruct Hr as [?|[rest ?]]; simplify_eq/=.
  - intros <-. destruct Hr' as [?|[rest ?]]; simplify_eq/=.
  - intros [= -> E]. simpl in Hp, Hq.
    apply andb_true_iff in Hp as [_ Hp]. apply andb_true_iff in Hq as [_ Hq].
    destruct (IH q Hp Hq Hr Hr' E) as [-> ->]. auto.
Qed.

Lemma join_cons (p : string) (parts : list string) :
  join "," (p :: parts) = p +:+ after_part parts.
Proof.
  destruct parts; simpl; [|reflexivity].
  induction p; simpl; congruence.
Qed.

Lemma after_part_ends (parts : list string) : ends_part (after_part parts).
Proof. destruct parts; [left|right]; simpl; eauto. Qed.

Lemma join_inj (l1 l2 : list string) :
  Forall (λ p, comma_free p = true ∧ p ≠ EmptyString) l1 →
  Forall (λ p, comma_free p = true ∧ p ≠ EmptyString) l2 →
  join "," l1 = join "," l2 → l1 = l2.
Proof.
  intros H1. revert l2.
  induction H1 as [|p ps [Hp Hne] _ IH]; intros l2 H2 E.
  - destruct H2 as [|q qs [_ Hq] _]; [reflexivity|].
    rewrite join_cons in E. simpl in E. destruct q; simplify_eq/=.
  - destruct H2 as [|q qs [Hq Hqne] H2].
    { rewrite join_cons in E. simpl in E. destruct p; simplify_eq/=. }
    rewrite !join_cons in E.
    apply part_boundary in E as [-> E]; auto using after_part_ends.
    f_equal. destruct ps as [|p' ps], qs as [|q' qs]; simplify_eq/=; auto.
Qed.

Lemma length_append (a b : string) :
  String.length (a +:+ b) = (String.length a + String.length b)%nat.
Proof. induction a; simpl; congruence. Qed.

Lemma append_inj_r (a b t : string) : a +:+ t = b +:+ t → a = b.
Proof.
  intros E.
  assert (String.length a = String.length b) as Hlen.
  { apply (f_equal String.length) in E.
    rewrite !length_append in E. lia. }
  revert b E Hlen. induction a as [|c a IH]; intros [|d b] E Hlen;
    simplify_eq/=; auto.
  f_equal. auto.
Qed.

Lemma JSON_stringify_integers (xs : list Z) :
  JSON_stringify (map VNum xs)
  = "[" +:+ join "," (map number_to_string xs) +:+ "]".
Proof.
  unfold JSON_stringify. simpl. do 3 f_equal.
  rewrite map_map. reflexivity.
Qed.

Lemma JSON_stringify_integers_inj (xs ys : list Z) :
  JSON_stringify (map VNum xs) = JSON_stringify (map VNum ys) → xs = ys.
Proof.
  rewrite !JSON_stringify_integers. intros E.
  simplify_eq/=. apply append_inj_r in E.
  apply join_inj in E.
  - revert ys E. induction xs as [|x xs IH]; intros [|y ys] E;
      simplify_eq/=; auto.
    f_equal; auto using number_to_string_inj.
  - apply List.Forall_map, Forall_true. intros x.
    auto using number_to_string_comma_free, number_to_string_nonempty.
  - apply List.Forall_map, Forall_true. intros y.
    auto using number_to_string_comma_free, number_to_string_nonempty.
Qed.

(** ** The cache key *)

Lemma key_with_supplier (name : string) (f : func) (args : list arg)
    (s : supplier) (st : store) (a : list jsval) :
  arg_at args 0 = ArgFun s → s st = Ok a →
  registered_key (Refactored.getWrappedFunction name f args st)
  = Some (name +:+ "-" +:+ JSON_stringify a).
Proof.
  intros Hs Ha. rewrite (call_with_supplier _ _ _ _ _ Hs).
  unfold Refactored.getWrappedFunctionWithArgs. rewrite Ha. reflexivity.
Qed.

(** C4 (as the code has it): a call with an argsSupplier registers under
    the function name, a dash, and [JSON.stringify] of the array the
    supplier returns in the current reactive state, in both versions.  Two
    such calls of the wrapper of one name get the same key exactly when the
    two arrays serialize alike; arrays of safe integers that differ, like
    [5] and [6], get different keys.  The arrays are taken in the range of
    the value model ([representable]: Numbers are safe integers), where
    [JSON_stringify] prints what [JSON.stringify] prints. *)
Theorem key_of_call_with_supplier (name : string) (f : func)
    (args1 args2 : list arg) (s1 s2 : supplier) (st1 st2 : store)
    (a1 a2 : list jsval) :
  arg_at args1 0 = ArgFun s1 → s1 st1 = Ok a1 →
  forallb representable a1 = true →
  arg_at args2 0 = ArgFun s2 → s2 st2 = Ok a2 →
  forallb representable a2 = true →
  let k1 := registered_key (Refactored.getWrappedFunction name f args1 st1) in
  let k2 := registered_key (Refactored.getWrappedFunction name f args2 st2) in
  k1 = Some (name +:+ "-" +:+ JSON_stringify a1)
  ∧ registered_key (IndexTs.wrapped_function name f args1 st1) = k1
  ∧ (k1 = k2 ↔ JSON_stringify a1 = JSON_stringify a2)
  ∧ (∀ xs ys : list Z,
       a1 = map VNum xs → a2 = map VNum ys → xs ≠ ys → k1 ≠ k2).
Proof.
  intros H1 Ha1 _ H2 Ha2 _ k1 k2.
  assert (k1 = Some (name +:+ "-" +:+ JSON_stringify a1)) as E1
    by (by eapply key_with_supplier).
  assert (k2 = Some (name +:+ "-" +:+ JSON_stringify a2)) as E2
    by (by eapply key_with_supplier).
  assert (k1 = k2 ↔ JSON_stringify a1 = JSON_stringify a2) as Hiff.
  { rewrite E1, E2. split.
    - intros [= E]. apply String.app_inj in E. congruence.
    - by intros ->. }
  split; [exact E1|]. split; [by rewrite wrapped_function_same|].
  split; [exact Hiff|].
  intros xs ys -> -> Hne Hk. apply Hne.
  by apply JSON_stringify_integers_inj, Hiff.
Qed.

Lemma key_of_call_with_supplier_witness :
  arg_at [ArgFun supply_5] 0 = ArgFun supply_5
  ∧ supply_5 st0 = Ok [VNum 5]
  ∧ forallb representable [VNum 5] = true
  ∧ arg_at [ArgFun supply_6] 0 = ArgFun supply_6
  ∧ supply_6 st0 = Ok [VNum 6]
  ∧ forallb representable [VNum 6] = true
  ∧ registered_key
      (Refactored.getWrappedFunction "g" getItem [ArgFun supply_5] st0)
    = Some "g-[5]"
  ∧ registered_key
      (Refactored.getWrappedFunction "g" getItem [ArgFun supply_5] st0)
    ≠ registered_key
      (Refactored.getWrappedFunction "g" getItem [ArgFun supply_6] st0).
Proof.
  do 6 (split; [reflexivity|]).
  pose proof (key_of_call_with_supplier "g" getItem
                [ArgFun supply_5] [ArgFun supply_6] supply_5 supply_6
                st0 st0 [VNum 5] [VNum 6]
                eq_refl eq_refl eq_refl eq_refl eq_refl eq_refl)
    as (Hk & _ & _ & Hne).
  split; [exact Hk|].
  apply (Hne [5] [6]); [reflexivity|reflexivity|discriminate].
Defined.

(** C4, counterexample: the argument arrays [undefined] and [null] differ
    and both are serialized as [null], so the two calls share one key. *)
Lemma different_arguments_same_key :
  [VUndefined] ≠ [VNull]
  ∧ registered_key
      (Refactored.getWrappedFunction "g" getItem
         [ArgFun (fun _ => Ok [VUndefined])] st0) = Some "g-[null]"
  ∧ registered_key
      (Refactored.getWrappedFunction "g" getItem
         [ArgFun (fun _ => Ok [VNull])] st0) = Some "g-[null]"
  ∧ registered_key
      (IndexTs.wrapped_function "g" getItem
         [ArgFun (fun _ => Ok [VUndefined])] st0)
    = registered_key
      (IndexTs.wrapped_function "g" getItem
         [ArgFun (fun _ => Ok [VNull])] st0).
Proof. repeat split; try reflexivity; discriminate. Qed.

(** ** The configuration *)

(** C6: in a call with an argsSupplier [s], both versions build the
    configuration by writing [watch: [argsRef]] first and the caller's
    options over it.  So a [watch] entry of the caller's options is the one
    in the configuration; without one, the configuration watches the
    computed arguments; every other entry is the caller's. *)
Theorem caller_options_written_last (name : string) (f : func)
    (args : list arg) (s : supplier) (st : store) (a : list jsval) :
  arg_at args 0 = ArgFun s → s st = Ok a →
  ∃ c, Refactored.getWrappedFunction name f args st = Ok c
       ∧ IndexTs.wrapped_function name f args st = Ok c
       ∧ fc_config c
         = spread_after {[ "watch" := OptWatch [ArgsRef s] ]} (arg_at args 1)
       ∧ (∀ v, own_entries (arg_at args 1) !! "watch" = Some v →
               fc_config c !! "watch" = Some v)
       ∧ (own_entries (arg_at args 1) !! "watch" = None →
          fc_config c !! "watch" = Some (OptWatch [ArgsRef s]))
       ∧ (∀ k, k ≠ "watch" →
               fc_config c !! k = own_entries (arg_at args 1) !! k).
Proof.
  intros Hs Ha. eexists. split.
  { rewrite (call_with_supplier _ _ _ _ _ Hs).
    unfold Refactored.getWrappedFunctionWithArgs. rewrite Ha. reflexivity. }
  split.
  { rewrite wrapped_function_same, (call_with_supplier _ _ _ _ _ Hs).
    unfold Refactored.getWrappedFunctionWithArgs. rewrite Ha. reflexivity. }
  simpl. split; [reflexivity|].
  repeat split.
  - intros v Hv. by rewrite spread_after_lookup, Hv.
  - intros Hv. rewrite spread_after_lookup, Hv. apply lookup_singleton_eq.
  - intros k Hk. rewrite spread_after_lookup.
    destruct (own_entries (arg_at args 1) !! k); [reflexivity|].
    by apply lookup_singleton_ne.
Qed.

Lemma caller_options_written_last_witness :
  arg_at [ArgFun supply_5; ArgOptions caller_options] 0 = ArgFun supply_5
  ∧ supply_5 st0 = Ok [VNum 5]
  ∧ ∃ c, Refactored.getWrappedFunction "getItem" getItem
           [ArgFun supply_5; ArgOptions caller_options] st0 = Ok c
         ∧ fc_config c !! "watch" = Some (OptWatch [CallerRef 7]).
Proof.
  split; [reflexivity|]. split; [reflexivity|].
  destruct (caller_options_written_last "getItem" getItem
              [ArgFun supply_5; ArgOptions caller_options] supply_5 st0
              [VNum 5] eq_refl eq_refl) as (c & Hc & _ & _ & Hw & _).
  exists c. split; [exact Hc|]. apply Hw. reflexivity.
Defined.

(** ** The handler *)

(** C7: whenever the original function returns, the handler returns a
    promise: the very promise the function returned, or, for a plain value,
    the promise fulfilled with that value.  The handler raises nothing of
    its own: if it throws, the argsSupplier or the original function threw
    that exception.  Both versions register the same handler. *)
Theorem handler_ensures_promise (name : string) (f : func)
    (args : list arg) (st st' : store) (c : fetch_call) :
  Refactored.getWrappedFunction name f args st = Ok c →
  IndexTs.wrapped_function name f args st = Ok c
  ∧ (∀ r, original_result f args st' = Ok r →
          fc_handler c st' = Ok (ensure_promise r)
          ∧ (∀ p, r = RPromise p → fc_handler c st' = Ok p)
          ∧ (∀ v, r = RPlain v → fc_handler c st' = Ok (Fulfilled v)))
  ∧ (∀ e, fc_handler c st' = Throw e →
          original_result f args st' = Throw e).
Proof.
  intros Hc. split; [by rewrite wrapped_function_same|].
  assert (fc_handler c st' = r ← original_result f args st';
                             mret (ensure_promise r)) as Hh.
  { unfold Refactored.getWrappedFunction, original_result in *.
    destruct (arg_at args 0) as [| s |] eqn:Ha.
    - injection Hc as <-. reflexivity.
    - unfold Refactored.getWrappedFunctionWithArgs in Hc.
      destruct (s st) as [a|e]; [|discriminate].
      injection Hc as <-. simpl.
      destruct (s st') as [a'|e']; reflexivity.
    - injection Hc as <-. reflexivity. }
  rewrite Hh. split.
  - intros r ->. split; [reflexivity|].
    split; [intros p ->|intros v ->]; reflexivity.
  - intros e. destruct (original_result f args st'); [discriminate|].
    intros [= ->]. reflexivity.
Qed.

Lemma handler_ensures_promise_witness :
  original_result getItem [ArgFun supply_ref] (st_id (VNum 5))
  = Ok (RPlain (VArr [VNum 5]))
  ∧ ∃ c, Refactored.getWrappedFunction "getItem" getItem
           [ArgFun supply_ref] st0 = Ok c
         ∧ fc_handler c (st_id (VNum 5)) = Ok (Fulfilled (VArr [VNum 5])).
Proof.
  split; [reflexivity|].
  eexists. split; [reflexivity|].
  eapply (handler_ensures_promise "getItem" getItem [ArgFun supply_ref]
            st0 (st_id (VNum 5)) _ eq_refl); reflexivity.
Defined.

(** ** A throwing argsSupplier *)

(** C8: when the argsSupplier throws in the state of the call, the wrapper
    call ends with that exception, unchanged, and registers nothing with the
    primitive; so in both versions. *)
Theorem supplier_exception_leaves_the_call (name : string) (f : func)
    (args : list arg) (s : supplier) (st : store) (e : exn) :
  arg_at args 0 = ArgFun s → s st = Throw e →
  Refactored.getWrappedFunction name f args st = Throw e
  ∧ IndexTs.wrapped_function name f args st = Throw e
  ∧ registered_key (Refactored.getWrappedFunction name f args st) = None.
Proof.
  intros Hs He.
  assert (Refactored.getWrappedFunction name f args st = Throw e) as H.
  { rewrite (call_with_supplier _ _ _ _ _ Hs).
    unfold Refactored.getWrappedFunctionWithArgs. by rewrite He. }
  rewrite wrapped_function_same, H. auto.
Qed.

Lemma supplier_exception_leaves_the_call_witness :
  arg_at [ArgFun supply_throw; ArgOptions caller_options] 0
  = ArgFun supply_throw
  ∧ supply_throw st0 = Throw (Thrown (VStr "boom"))
  ∧ Refactored.getWrappedFunction "getItem" getItem
      [ArgFun supply_throw; ArgOptions caller_options] st0
    = Throw (Thrown (VStr "boom"))
  ∧ IndexTs.wrapped_function "getItem" getItem
      [ArgFun supply_throw; ArgOptions caller_options] st0
    = Throw (Thrown (VStr "boom")).
Proof.
  split; [reflexivity|]. split; [reflexivity|].
  destruct (supplier_exception_leaves_the_call "getItem" getItem
              [ArgFun supply_throw; ArgOptions caller_options]
              supply_throw st0 (Thrown (VStr "boom")) eq_refl eq_refl)
    as (H2 & H1 & _).
  split; [exact H2|exact H1].
Defined.

(** ** Building the wrapped object *)

Lemma Refactored_wrap_one_scheme :
  Refactored.wrap_one = wrap_with Refactored.getWrappedFunction.
Proof. reflexivity. Qed.

Lemma IndexTs_wrap_one_scheme :
  IndexTs.wrap_one = wrap_with IndexTs.wrapped_function.
Proof. reflexivity. Qed.

Lemma get_found (o : jsobj) (key : string) (m : member) :
  lookup_chain o key = Some m → get o key = Ok (Some m).
Proof. destruct o; [discriminate|..]; intros <-; reflexivity. Qed.

Lemma get_not_function (o : jsobj) (key : string) :
  typeof_function (lookup_chain o key) = false →
  get o key = Throw (TypeError "Cannot read properties of null")
  ∨ get o key = Ok None
  ∨ ∃ v, get o key = Ok (Some (MData v)).
Proof.
  destruct o as [|own|own proto]; [by left|..]; unfold get;
    destruct (lookup_chain _ key) as [[v|f]|]; try discriminate; eauto.
Qed.

Section Loop.
Variable mk : string → func → list arg → store → result fetch_call.
Variable obj : jsobj.

Lemma wrap_with_function (members : gmap string wrapper) (key : string)
    (n : nat) (f : func) :
  lookup_chain obj key = Some (MFun f) →
  wrap_with mk obj members key n
  = Ok (<[key := {| w_id := n; w_call := mk key f |}]> members, S n).
Proof.
  intros Hf. unfold wrap_with. rewrite (get_found _ _ _ Hf). reflexivity.
Qed.

Lemma wrap_with_no_function (members : gmap string wrapper) (key : string)
    (n : nat) :
  typeof_function (lookup_chain obj key) = false →
  ∃ msg, wrap_with mk obj members key n = Throw (TypeError msg).
Proof.
  intros Hf. unfold wrap_with.
  destruct (get_not_function _ _ Hf) as [E|[E|[v E]]]; rewrite E;
    eexists; reflexivity.
Qed.

Lemma wrap_with_inv (members : gmap string wrapper) (key : string)
    (n : nat) (r : gmap string wrapper * nat) :
  wrap_with mk obj members key n = Ok r →
  ∃ f, lookup_chain obj key = Some (MFun f)
       ∧ r = (<[key := {| w_id := n; w_call := mk key f |}]> members, S n).
Proof.
  intros Hr.
  destruct (lookup_chain obj key) as [[v|f]|] eqn:Hf.
  - destruct (wrap_with_no_function members key n) as [msg E];
      [by rewrite Hf|congruence].
  - exists f. split; [reflexivity|].
    rewrite (wrap_with_function _ _ _ _ Hf) in Hr. congruence.
  - destruct (wrap_with_no_function members key n) as [msg E];
      [by rewrite Hf|congruence].
Qed.

Lemma for_of_cons (key : string) (names : list string)
    (members : gmap string wrapper) (n : nat) :
  for_of (key :: names) (wrap_with mk obj) members n
  = match wrap_with mk obj members key n with
    | Ok (members', n') => for_of names (wrap_with mk obj) members' n'
    | Throw e => Throw e
    end.
Proof. reflexivity. Qed.

(** A loop over names that all are functions on [obj] completes. *)
Lemma for_of_completes (names : list string) :
  Forall (λ key, typeof_function (lookup_chain obj key) = true) names →
  ∀ members n, ∃ members',
    for_of names (wrap_with mk obj) members n
    = Ok (members', (n + length names)%nat).
Proof.
  induction 1 as [|key names Hkey _ IH]; intros members n.
  - exists members. simpl. by rewrite Nat.add_0_r.
  - destruct (lookup_chain obj key) as [[v|f]|] eqn:Hf; try discriminate.
    rewrite for_of_cons, (wrap_with_function _ _ _ _ Hf).
    destruct (IH (<[key := {| w_id := n; w_call := mk key f |}]> members)
                 (S n)) as [m Hm].
    exists m. rewrite Hm. simpl. by rewrite Nat.add_succ_r.
Qed.

(** What a completed loop has built. *)
Lemma for_of_built (names : list string) :
  ∀ members n members' n',
    for_of names (wrap_with mk obj) members n = Ok (members', n') →
    n' = (n + length names)%nat
    ∧ Forall (λ key, typeof_function (lookup_chain obj key) = true) names
    ∧ (∀ key, is_Some (members' !! key)
              ↔ is_Some (members !! key) ∨ key ∈ names)
    ∧ (∀ key w, members' !! key = Some w →
         members !! key = Some w
         ∨ (key ∈ names ∧ (n ≤ w_id w < n')%nat
            ∧ ∃ f, lookup_chain obj key = Some (MFun f)
                   ∧ w_call w = mk key f)).
Proof.
  induction names as [|k names IH]; intros members n members' n' Hrun.
  - cbn in Hrun. injection Hrun as <- <-.
    split; [simpl; lia|]. split; [constructor|].
    split; [|auto]. intros key. rewrite elem_of_nil. tauto.
  - rewrite for_of_cons in Hrun.
    destruct (wrap_with mk obj members k n) as [[m1 n1]|e] eqn:Hstep;
      [|discriminate].
    apply wrap_with_inv in Hstep as (f & Hf & [= -> ->]).
    apply IH in Hrun as (-> & Hall & Hdom & Hmem).
    split; [simpl; lia|].
    split; [constructor; [by rewrite Hf|exact Hall]|].
    split.
    + intros key. rewrite Hdom, elem_of_cons.
      destruct (decide (k = key)) as [->|Hne].
      * rewrite lookup_insert_eq. split; eauto.
      * rewrite lookup_insert_ne by done. intuition congruence.
    + intros key w Hw. apply Hmem in Hw as [Hw|(Hin & Hid & Hcall)].
      * destruct (decide (k = key)) as [->|Hne].
        -- rewrite lookup_insert_eq in Hw. injection Hw as <-.
           right. split; [left|]. simpl. split; [lia|eauto].
        -- rewrite lookup_insert_ne in Hw by done. by left.
      * right. split; [by right|]. split; [lia|exact Hcall].
Qed.

End Loop.

Lemma Refactored_build (obj : jsobj) (n : nat) :
  Refactored.useAsyncDataWrapper obj n
  = build Refactored.getWrappedFunction obj
          (Refactored.getFunctionNames obj) n.
Proof. reflexivity. Qed.

Lemma IndexTs_build (obj : jsobj) (n : nat) :
  IndexTs.useAsyncDataWrapper obj n
  = match IndexTs.functionNames obj with
    | Ok names => build IndexTs.wrapped_function obj names n
    | Throw e => Throw e
    end.
Proof.
  unfold IndexTs.useAsyncDataWrapper.
  destruct (IndexTs.functionNames obj); reflexivity.
Qed.

Section Build.
Variable mk : string → func → list arg → store → result fetch_call.
Variable obj : jsobj.
Variable names : list string.

Lemma build_unfold (n : nat) :
  build mk obj names n
  = match for_of names (wrap_with mk obj) ∅ (S n) with
    | Ok (members, n') => Ok ({| wr_id := n; wr_members := members |}, n')
    | Throw e => Throw e
    end.
Proof.
  unfold build, mbind, M_bind, fresh.
  destruct (for_of names (wrap_with mk obj) ∅ (S n)) as [[m n']|e];
    reflexivity.
Qed.

Lemma build_inv (n n' : nat) (w : wrapped) :
  build mk obj names n = Ok (w, n') →
  wr_id w = n
  ∧ n' = (S n + length names)%nat
  ∧ Forall (λ key, typeof_function (lookup_chain obj key) = true) names
  ∧ (∀ key, is_Some (wr_members w !! key) ↔ key ∈ names)
  ∧ (∀ key wf, wr_members w !! key = Some wf →
       (S n ≤ w_id wf < n')%nat
       ∧ ∃ f, lookup_chain obj key = Some (MFun f)
              ∧ w_call wf = mk key f).
Proof.
  rewrite build_unfold.
  destruct (for_of names (wrap_with mk obj) ∅ (S n)) as [[m n1]|e] eqn:Hrun;
    [|discriminate].
  intros [= <- <-]. simpl.
  apply for_of_built in Hrun as (-> & Hall & Hdom & Hmem).
  split; [reflexivity|]. split; [reflexivity|]. split; [exact Hall|].
  split.
  - intros key. rewrite Hdom, lookup_empty.
    split; [intros [[? ?]|?]; [discriminate|done]|by right].
  - intros key wf Hwf.
    apply Hmem in Hwf as [Hwf|(_ & Hid & Hcall)]; [|by split].
    by rewrite lookup_empty in Hwf.
Qed.

Lemma build_completes (n : nat) :
  Forall (λ key, typeof_function (lookup_chain obj key) = true) names →
  ∃ w, build mk obj names n = Ok (w, (S n + length names)%nat).
Proof.
  intros Hall. rewrite build_unfold.
  destruct (for_of_completes mk obj names Hall ∅ (S n)) as [m ->].
  eexists. reflexivity.
Qed.

(** Building twice from the same names. *)
Lemma build_again (n n1 n' : nat) (w1 : wrapped) :
  build mk obj names n = Ok (w1, n1) → (n1 ≤ n')%nat →
  ∃ w2 n2, build mk obj names n' = Ok (w2, n2)
           ∧ equivalent_not_identical w1 w2.
Proof.
  intros H1 Hle.
  pose proof (build_inv _ _ _ H1) as (Hid1 & Hn1 & Hall & Hdom1 & Hmem1).
  destruct (build_completes n' Hall) as [w2 H2].
  pose proof (build_inv _ _ _ H2) as (Hid2 & _ & _ & Hdom2 & Hmem2).
  exists w2, (S n' + length names)%nat. split; [exact H2|].
  split; [lia|]. split.
  - apply set_eq. intros key. rewrite !elem_of_dom, Hdom1, Hdom2. tauto.
  - intros name wf1 Hwf1.
    assert (is_Some (wr_members w2 !! name)) as [wf2 Hwf2].
    { apply Hdom2, Hdom1. eauto. }
    exists wf2. split; [exact Hwf2|].
    destruct (Hmem1 _ _ Hwf1) as (Hr1 & f1 & Hf1 & Hc1).
    destruct (Hmem2 _ _ Hwf2) as (Hr2 & f2 & Hf2 & Hc2).
    split; [lia|].
    intros args st. rewrite Hc1, Hc2.
    assert (f1 = f2) as -> by congruence. split; reflexivity.
Qed.

End Build.

Lemma wrapped_by_either_version (obj : jsobj) (n n' : nat) (w : wrapped) :
  Refactored.useAsyncDataWrapper obj n = Ok (w, n')
  ∨ IndexTs.useAsyncDataWrapper obj n = Ok (w, n') →
  ∀ key wf, wr_members w !! key = Some wf →
    ∃ f, lookup_chain obj key = Some (MFun f)
         ∧ ∀ args st, w_call wf args st
                      = Refactored.getWrappedFunction key f args st.
Proof.
  intros [H|H] key wf Hwf.
  - rewrite Refactored_build in H.
    apply build_inv in H as (_ & _ & _ & _ & Hmem).
    destruct (Hmem _ _ Hwf) as (_ & f & Hf & Hcall).
    exists f. split; [exact Hf|]. intros args st. by rewrite Hcall.
  - rewrite IndexTs_build in H.
    destruct (IndexTs.functionNames obj) as [names|e]; [|discriminate].
    apply build_inv in H as (_ & _ & _ & _ & Hmem).
    destruct (Hmem _ _ Hwf) as (_ & f & Hf & Hcall).
    exists f. split; [exact Hf|]. intros args st.
    rewrite Hcall. apply wrapped_function_same.
Qed.

(** The call with no argument of a wrapper that either version built:
    it registers under the bare name of the member it wraps, with an empty
    configuration, and its handler calls the member with no argument. *)
Lemma member_call_uses_bare_name (obj : jsobj) (name : string)
    (f : func) (n n' : nat) (w : wrapped) (wf : wrapper) (st : store) :
  lookup_chain obj name = Some (MFun f) →
  Refactored.useAsyncDataWrapper obj n = Ok (w, n')
  ∨ IndexTs.useAsyncDataWrapper obj n = Ok (w, n') →
  wr_members w !! name = Some wf →
  ∃ c, w_call wf [] st = Ok c
       ∧ fc_key c = name
       ∧ fc_config c = ∅
       ∧ ∀ st', fc_handler c st'
                = (r ← fn_call f st' []; mret (ensure_promise r)).
Proof.
  intros Hf Hw Hwf.
  destruct (wrapped_by_either_version _ _ _ _ Hw _ _ Hwf) as (g & Hg & Hcall).
  assert (g = f) as -> by congruence.
  eexists. split; [rewrite Hcall; reflexivity|].
  simpl. split; [reflexivity|]. split; [|reflexivity].
  unfold spread_after. simpl. apply map_fold_empty.
Qed.

Lemma methods_unshadowed_Forall (obj : jsobj) :
  methods_unshadowed obj = true →
  Forall (λ key, typeof_function (lookup_chain obj key) = true)
         (Refactored.getFunctionNames obj).
Proof.
  unfold methods_unshadowed. rewrite forallb_forall, Forall_forall.
  intros H key Hkey. by apply H, list_elem_of_In.
Qed.

(** Where a member has a wrapper, and what its call with no argument does.
    The refactored version, on an object on which no method is shadowed,
    returns a wrapped object with a wrapper for every name
    [getFunctionNames] found; [src/index.ts], when it has read the names,
    returns one with a wrapper for each of them.  In both the call with no
    argument of the wrapper of a member [f] registers under exactly the
    name of [f], with an empty configuration and a handler that calls [f]
    with no argument. *)
Lemma wrapper_of_found_name_uses_bare_name (obj : jsobj) (name : string)
    (f : func) (n : nat) (st : store) :
  lookup_chain obj name = Some (MFun f) →
  (methods_unshadowed obj = true →
   name ∈ Refactored.getFunctionNames obj →
   ∃ w n' wf c,
     Refactored.useAsyncDataWrapper obj n = Ok (w, n')
     ∧ wr_members w !! name = Some wf
     ∧ w_call wf [] st = Ok c
     ∧ fc_key c = name
     ∧ fc_config c = ∅
     ∧ ∀ st', fc_handler c st'
              = (r ← fn_call f st' []; mret (ensure_promise r)))
  ∧ (∀ names,
       IndexTs.functionNames obj = Ok names → name ∈ names →
       ∃ w n' wf c,
         IndexTs.useAsyncDataWrapper obj n = Ok (w, n')
         ∧ wr_members w !! name = Some wf
         ∧ w_call wf [] st = Ok c
         ∧ fc_key c = name
         ∧ fc_config c = ∅
         ∧ ∀ st', fc_handler c st'
                  = (r ← fn_call f st' []; mret (ensure_promise r))).
Proof.
  intros Hf. split.
  - intros Hall%methods_unshadowed_Forall Hname.
    destruct (build_completes Refactored.getWrappedFunction obj _ n Hall)
      as [w Hw].
    rewrite <- Refactored_build in Hw.
    pose proof Hw as Hw'. rewrite Refactored_build in Hw'.
    apply build_inv in Hw' as (_ & _ & _ & Hdom & _).
    destruct (proj2 (Hdom name) Hname) as [wf Hwf].
    destruct (member_call_uses_bare_name obj name f n _ w wf st Hf
                (or_introl Hw) Hwf) as (c & Hc & Hrest).
    eexists w, _, wf, c. eauto.
  - intros names Hnames Hname.
    pose proof (IndexTs_build obj n) as Hb. rewrite Hnames in Hb.
    assert (Forall (λ key, typeof_function (lookup_chain obj key) = true)
              names) as Hall.
    { unfold IndexTs.functionNames in Hnames.
      destruct (getPrototypeOf obj) as [proto|]; [|discriminate].
      simpl in Hnames.
      destruct (getOwnPropertyNames proto) as [keys|]; [|discriminate].
      injection Hnames as <-.
      apply Forall_forall. intros key Hkey.
      apply list_elem_of_In, List.filter_In in Hkey as [_ Hkey].
      unfold IndexTs.is_function_name in Hkey.
      by apply andb_true_iff in Hkey as [_ Hkey]. }
    destruct (build_completes IndexTs.wrapped_function obj _ n Hall)
      as [w Hw].
    rewrite <- Hb in Hw.
    pose proof Hw as Hw'. rewrite Hb in Hw'.
    apply build_inv in Hw' as (_ & _ & _ & Hdom & _).
    destruct (proj2 (Hdom name) Hname) as [wf Hwf].
    destruct (member_call_uses_bare_name obj name f n _ w wf st Hf
                (or_intror Hw) Hwf) as (c & Hc & Hrest).
    eexists w, _, wf, c. eauto.
Qed.

(** C9: when either version has wrapped [obj], wrapping [obj] again, at
    any later time, completes too, and the two wrapped objects are
    equivalent without being identical: they are two objects, with the same
    names, and under each name two wrapper functions that do the same on
    every call, so that equal arguments give equal keys. *)
Theorem rewrapping_is_equivalent (obj : jsobj) (n n1 n' : nat)
    (w1 : wrapped) :
  (n1 ≤ n')%nat →
  (Refactored.useAsyncDataWrapper obj n = Ok (w1, n1) →
   ∃ w2 n2, Refactored.useAsyncDataWrapper obj n' = Ok (w2, n2)
            ∧ equivalent_not_identical w1 w2)
  ∧ (IndexTs.useAsyncDataWrapper obj n = Ok (w1, n1) →
     ∃ w2 n2, IndexTs.useAsyncDataWrapper obj n' = Ok (w2, n2)
              ∧ equivalent_not_identical w1 w2).
Proof.
  intros Hle. split.
  - rewrite !Refactored_build. intros H. by eapply build_again.
  - rewrite !IndexTs_build.
    destruct (IndexTs.functionNames obj) as [names|e]; [|discriminate].
    intros H. by eapply build_again.
Qed.

Lemma rewrapping_is_equivalent_witness :
  (3 ≤ 5)%nat
  ∧ ∃ w1, Refactored.useAsyncDataWrapper new_Service 0%nat = Ok (w1, 3%nat)
          ∧ ∃ w2 n2,
              Refactored.useAsyncDataWrapper new_Service 5%nat = Ok (w2, n2)
              ∧ equivalent_not_identical w1 w2.
Proof.
  split; [lia|].
  eexists. split; [lazy -[Refactored.getWrappedFunction]; reflexivity|].
  refine (proj1 (rewrapping_is_equivalent new_Service 0%nat 3%nat 5%nat _ _) _);
    [lia|reflexivity].
Defined.

(** ** The names [getFunctionNames] finds *)

Lemma Set_add_elem (key x : string) (s : list string) :
  key ∈ Set_add x s ↔ key = x ∨ key ∈ s.
Proof.
  unfold Set_add. case_bool_decide as Hx.
  - split; [auto|]. intros [->|?]; assumption.
  - rewrite elem_of_app, list_elem_of_singleton. tauto.
Qed.

Lemma Set_add_NoDup (x : string) (s : list string) :
  NoDup s → NoDup (Set_add x s).
Proof.
  intros Hs. unfold Set_add. case_bool_decide as Hx; [exact Hs|].
  apply NoDup_app. split; [exact Hs|]. split.
  - intros y Hy ->%list_elem_of_singleton. contradiction.
  - apply NoDup_singleton.
Qed.

Lemma assoc_elem {A : Type} (key : string) (l : list (string * A)) :
  key ∈ map fst l ↔ is_Some (assoc key l).
Proof.
  induction l as [|[k a] l IH]; simpl.
  - rewrite elem_of_nil. split; [tauto|]. by intros [? ?].
  - rewrite elem_of_cons, IH.
    destruct (String.eqb_spec k key) as [->|Hne]; [split; eauto|].
    split; [intros [?|?]; [congruence|assumption]|auto].
Qed.

(** Read on the object that owns it, an own property is itself. *)
Lemma lookup_chain_own (own : list (string * member)) (proto : jsobj)
    (key : string) :
  key ∈ map fst own →
  lookup_chain (Obj own proto) key = assoc key own.
Proof.
  intros [m Hm]%assoc_elem. simpl. by rewrite Hm.
Qed.

Lemma collect_fold (current : jsobj) (keys s : list string) (key : string) :
  key ∈ fold_left (Refactored.collect current) keys s
  ↔ key ∈ s
    ∨ (key ∈ keys ∧ key ≠ "constructor"
       ∧ typeof_function (lookup_chain current key) = true).
Proof.
  revert s. induction keys as [|k keys IH]; intros s; simpl.
  - rewrite elem_of_nil. tauto.
  - rewrite IH, elem_of_cons. unfold Refactored.collect.
    destruct (String.eqb_spec k "constructor") as [->|Hk]; simpl.
    { intuition congruence. }
    destruct (typeof_function (lookup_chain current k)) eqn:Hf.
    + rewrite Set_add_elem. intuition congruence.
    + intuition congruence.
Qed.

Lemma collect_fold_NoDup (current : jsobj) (keys s : list string) :
  NoDup s → NoDup (fold_left (Refactored.collect current) keys s).
Proof.
  revert s. induction keys as [|k keys IH]; intros s Hs; simpl; [exact Hs|].
  apply IH. unfold Refactored.collect.
  destruct (_ && _); auto using Set_add_NoDup.
Qed.

Lemma walk_elem (o : jsobj) (s : list string) (key : string) :
  key ∈ Refactored.walk s o
  ↔ key ∈ s ∨ (key ≠ "constructor" ∧ declares o key).
Proof.
  revert s. induction o as [|own|own proto IH]; intros s; simpl.
  - tauto.
  - tauto.
  - rewrite IH, collect_fold. unfold own_function.
    rewrite andb_true_iff, bool_decide_eq_true.
    split.
    + intros [[?|(Hin & Hc & Hf)]|[Hc Hd]]; auto.
      rewrite lookup_chain_own in Hf by assumption. auto.
    + intros [?|(Hc & [[Hin Hf]|Hd])]; auto.
      left. right. rewrite lookup_chain_own by assumption. auto.
Qed.

Lemma walk_NoDup (o : jsobj) (s : list string) :
  NoDup s → NoDup (Refactored.walk s o).
Proof.
  revert s. induction o as [|own|own proto IH]; intros s Hs; simpl; auto.
  apply IH, collect_fold_NoDup, Hs.
Qed.

(** The refactored enumeration: exactly the names, other than
    [constructor], that some object of the chain below [Object.prototype]
    has as a function-valued own property, each once. *)
Lemma getFunctionNames_spec (obj : jsobj) :
  NoDup (Refactored.getFunctionNames obj)
  ∧ ∀ key, key ∈ Refactored.getFunctionNames obj
           ↔ key ≠ "constructor" ∧ declares obj key.
Proof.
  split; [apply walk_NoDup, NoDup_nil_2|].
  intros key. unfold Refactored.getFunctionNames.
  rewrite walk_elem, elem_of_nil. tauto.
Qed.

(** The refactored version completes on every object on which no inherited
    method is shadowed by a data property, and then holds a wrapper for
    exactly the names found. *)
Lemma Refactored_wraps_found_names (obj : jsobj) (n : nat) :
  no_shadowed_method obj →
  ∃ w n', Refactored.useAsyncDataWrapper obj n = Ok (w, n')
          ∧ ∀ key, is_Some (wr_members w !! key)
                   ↔ key ≠ "constructor" ∧ declares obj key.
Proof.
  intros Hsh. rewrite Refactored_build.
  destruct (build_completes Refactored.getWrappedFunction obj
              (Refactored.getFunctionNames obj) n) as [w Hw].
  { apply Forall_forall. intros key Hkey.
    apply getFunctionNames_spec in Hkey as [Hc Hd]. by apply Hsh. }
  exists w, (S n + length (Refactored.getFunctionNames obj))%nat.
  split; [exact Hw|].
  apply build_inv in Hw as (_ & _ & _ & Hdom & _).
  intros key. rewrite Hdom. apply getFunctionNames_spec.
Qed.

(** An object whose chain declares no function (other than constructors):
    the refactored version returns an object without members. *)
Lemma Refactored_nothing_to_wrap (obj : jsobj) (n : nat) :
  (∀ key, key ≠ "constructor" → ¬ declares obj key) →
  Refactored.useAsyncDataWrapper obj n
  = Ok ({| wr_id := n; wr_members := ∅ |}, S n).
Proof.
  intros Hnone. rewrite Refactored_build, build_unfold.
  assert (Refactored.getFunctionNames obj = []) as ->; [|reflexivity].
  destruct (Refactored.getFunctionNames obj) as [|key names] eqn:E;
    [reflexivity|].
  assert (key ∈ Refactored.getFunctionNames obj) as Hkey
    by (rewrite E; left).
  apply getFunctionNames_spec in Hkey as [Hc Hd]. by destruct (Hnone key).
Qed.

(** ** Where the two versions find the same names *)

Lemma collect_fold_nothing (current : jsobj) (keys s : list string) :
  (∀ key, key ∈ keys → key ≠ "constructor" →
          typeof_function (lookup_chain current key) = false) →
  fold_left (Refactored.collect current) keys s = s.
Proof.
  revert s. induction keys as [|k keys IH]; intros s Hnone; simpl;
    [reflexivity|].
  assert (Refactored.collect current s k = s) as ->.
  { unfold Refactored.collect.
    destruct (String.eqb_spec k "constructor") as [->|Hk]; [reflexivity|].
    rewrite (Hnone k); [reflexivity|left|exact Hk]. }
  apply IH. intros key Hkey. apply Hnone. by right.
Qed.

Lemma walk_nothing (o : jsobj) (s : list string) :
  (∀ key, key ≠ "constructor" → ¬ declares o key) →
  Refactored.walk s o = s.
Proof.
  induction o as [|own|own proto IH]; intros Hnone; simpl; auto.
  rewrite collect_fold_nothing.
  - apply IH. intros key Hc Hd. apply (Hnone key Hc). simpl. by right.
  - intros key Hin Hc.
    destruct (typeof_function (lookup_chain (Obj own proto) key)) eqn:Hf;
      [|reflexivity].
    destruct (Hnone key Hc). simpl. left. unfold own_function.
    rewrite lookup_chain_own in Hf by assumption.
    by rewrite Hf, bool_decide_true.
Qed.

Lemma collect_fold_filter (current : jsobj) (keys s : list string) :
  NoDup keys → (∀ key, key ∈ keys → key ∉ s) →
  fold_left (Refactored.collect current) keys s
  = (s ++ List.filter
            (fun key => negb (String.eqb key "constructor")
                        && typeof_function (lookup_chain current key))
            keys)%list.
Proof.
  intros Hnd. revert s.
  induction Hnd as [|k keys Hk _ IH]; intros s Hfresh; simpl.
  - by rewrite app_nil_r.
  - unfold Refactored.collect at 2.
    destruct (negb (String.eqb k "constructor")
              && typeof_function (lookup_chain current k)).
    + unfold Set_add. rewrite bool_decide_false by (apply Hfresh; left).
      rewrite IH.
      * by rewrite <- app_assoc.
      * intros key Hkey [Hs| ->%list_elem_of_singleton]%elem_of_app;
          [|contradiction].
        by apply (Hfresh key); [right|].
    + apply IH. intros key Hkey. apply Hfresh. by right.
Qed.

Lemma assoc_no_function (own : list (string * member)) (key : string) :
  forallb (fun kv => negb (typeof_function (Some (snd kv)))) own = true →
  typeof_function (assoc key own) = false.
Proof.
  induction own as [|[k m] own IH]; simpl; [reflexivity|].
  intros [Hm Hrest]%andb_true_iff.
  destruct (String.eqb k key); [|auto].
  simpl in Hm. by apply negb_true_iff in Hm.
Qed.

Lemma names_agree (obj : jsobj) :
  methods_on_direct_prototype obj = true →
  IndexTs.functionNames obj = Ok (Refactored.getFunctionNames obj)
  ∧ Forall (λ key, typeof_function (lookup_chain obj key) = true)
           (Refactored.getFunctionNames obj).
Proof.
  destruct obj as [|?|own [|?|pown anc]]; try discriminate. simpl.
  intros [[[Hown Hsh]%andb_true_iff Hnd%bool_decide_eq_true]%andb_true_iff
          Hanc%bool_decide_eq_true]%andb_true_iff.
  assert (∀ key, key ∈ map fst pown →
            lookup_chain (Obj own (Obj pown anc)) key
            = lookup_chain (Obj pown anc) key) as Hsame.
  { intros key Hkey. simpl.
    destruct (assoc key own) as [m|] eqn:Hm; [|reflexivity].
    assert (key ∈ map fst own) as Hin by (apply assoc_elem; eauto).
    rewrite forallb_forall in Hsh.
    apply list_elem_of_In, Hsh, negb_true_iff, bool_decide_eq_false in Hin.
    contradiction. }
  assert (Refactored.getFunctionNames (Obj own (Obj pown anc))
          = List.filter (IndexTs.is_function_name (Obj own (Obj pown anc)))
                        (map fst pown)) as Hnames.
  { unfold Refactored.getFunctionNames.
    change (Refactored.walk [] (Obj own (Obj pown anc)))
      with (Refactored.walk
              (fold_left (Refactored.collect (Obj pown anc)) (map fst pown)
                 (fold_left (Refactored.collect (Obj own (Obj pown anc)))
                    (map fst own) []))
              anc).
    rewrite (collect_fold_nothing (Obj own (Obj pown anc))).
    2:{ intros key Hin _. rewrite lookup_chain_own by assumption.
        by apply assoc_no_function. }
    rewrite walk_nothing.
    2:{ intros key Hc Hd.
        assert (key ∈ Refactored.getFunctionNames anc) as Hk
          by (by apply getFunctionNames_spec).
        rewrite Hanc in Hk. by apply elem_of_nil in Hk. }
    rewrite collect_fold_filter; [|exact Hnd|intros ? ?; apply not_elem_of_nil].
    simpl. apply List.filter_ext_in. intros key Hkey%list_elem_of_In.
    unfold IndexTs.is_function_name. by rewrite Hsame. }
  split.
  - unfold IndexTs.functionNames. simpl. by rewrite Hnames.
  - rewrite Hnames. apply Forall_forall. intros key Hkey.
    apply list_elem_of_In, List.filter_In in Hkey as [_ Hkey].
    unfold IndexTs.is_function_name in Hkey.
    by apply andb_true_iff in Hkey as [_ Hkey].
Qed.

(** Where the two versions do agree: their wrapper functions do the same
    on every call, for every name, original function, arguments and
    reactive state; and on an instance whose methods all sit on its direct
    prototype, an ordinary object other than [Object.prototype], both
    complete with the same names. *)
Theorem versions_agree_on_direct_prototype_methods (obj : jsobj) (n : nat) :
  (∀ key f args st,
     IndexTs.wrapped_function key f args st
     = Refactored.getWrappedFunction key f args st)
  ∧ (methods_on_direct_prototype obj = true →
     IndexTs.functionNames obj = Ok (Refactored.getFunctionNames obj)
     ∧ versions_agree_on obj n).
Proof.
  split; [apply wrapped_function_same|].
  intros Hobj. destruct (names_agree obj Hobj) as [Hnames Hall].
  split; [exact Hnames|].
  destruct (build_completes IndexTs.wrapped_function obj _ n Hall) as [w1 H1].
  destruct (build_completes Refactored.getWrappedFunction obj _ n Hall)
    as [w2 H2].
  exists w1, w2, (S n + length (Refactored.getFunctionNames obj))%nat.
  assert (IndexTs.useAsyncDataWrapper obj n
          = Ok (w1, (S n + length (Refactored.getFunctionNames obj))%nat))
    as H1' by (by rewrite IndexTs_build, Hnames).
  split; [exact H1'|]. split; [by rewrite Refactored_build|].
  split.
  - apply build_inv in H1 as (_ & _ & _ & Hdom1 & _).
    apply build_inv in H2 as (_ & _ & _ & Hdom2 & _).
    apply set_eq. intros key. rewrite !elem_of_dom, Hdom1, Hdom2. tauto.
  - intros name wf1 wf2 Hwf1 Hwf2 args st.
    destruct (wrapped_by_either_version obj n _ w1 (or_intror H1') _ _ Hwf1)
      as (f1 & Hf1 & ->).
    rewrite <- Refactored_build in H2.
    destruct (wrapped_by_either_version obj n _ w2 (or_introl H2) _ _ Hwf2)
      as (f2 & Hf2 & ->).
    congruence.
Qed.

Lemma versions_agree_on_direct_prototype_methods_witness :
  methods_on_direct_prototype new_Service = true
  ∧ IndexTs.functionNames new_Service = Ok ["fetchData"; "getItem"]
  ∧ versions_agree_on new_Service 0.
Proof.
  split; [vm_compute; reflexivity|].
  destruct (versions_agree_on_direct_prototype_methods new_Service 0)
    as [_ H].
  destruct (H eq_refl) as [Hnames Hagree].
  split; [exact Hnames|exact Hagree].
Defined.

(** C10, at [new Derived()]: the version of [src/index.ts] finds the one
    name [b], the refactored version finds [b] and [a]; the second wrapped
    object has a wrapper [a], the first has none. *)
Lemma versions_find_different_names :
  IndexTs.functionNames new_Derived = Ok ["b"]
  ∧ Refactored.getFunctionNames new_Derived = ["b"; "a"]
  ∧ has_member (IndexTs.useAsyncDataWrapper new_Derived 0%nat) "b" = true
  ∧ has_member (IndexTs.useAsyncDataWrapper new_Derived 0%nat) "a" = false
  ∧ has_member (Refactored.useAsyncDataWrapper new_Derived 0%nat) "b" = true
  ∧ has_member (Refactored.useAsyncDataWrapper new_Derived 0%nat) "a" = true.
Proof. repeat split; vm_compute; reflexivity. Qed.

(** C2, at [new Derived()], where [Base] declares [a] and [Derived] adds
    [b]: [src/index.ts] takes the own names of the direct prototype only
    and wraps [b] alone; the refactored [getFunctionNames] walks the chain
    and both [a] and [b] are wrapped. *)
Lemma index_ts_misses_inherited_method :
  getPrototypeOf new_Derived = Ok Derived_prototype
  ∧ getOwnPropertyNames Derived_prototype = Ok ["constructor"; "b"]
  ∧ IndexTs.functionNames new_Derived = Ok ["b"]
  ∧ has_member (IndexTs.useAsyncDataWrapper new_Derived 0%nat) "a" = false
  ∧ has_member (IndexTs.useAsyncDataWrapper new_Derived 0%nat) "b" = true
  ∧ Refactored.getFunctionNames new_Derived = ["b"; "a"]
  ∧ has_member (Refactored.useAsyncDataWrapper new_Derived 0%nat) "a" = true
  ∧ has_member (Refactored.useAsyncDataWrapper new_Derived 0%nat) "b" = true.
Proof. repeat split; vm_compute; reflexivity. Qed.

(** C3, where wrapping fails.  The refactored version keeps the name [a]
    of a method that a data property of the source object shadows, and
    then fails to bind the number it reads; [src/index.ts], which tests
    [obj[key]], wraps nothing there.  [src/index.ts] fails on an object
    without prototype, where the refactored loop just ends.  On [{ x: 1 }]
    [src/index.ts] finds the function names of [Object.prototype]. *)
Lemma wrapping_fails_on_some_objects :
  Refactored.getFunctionNames shadowed_a = ["a"]
  ∧ lookup_chain shadowed_a "a" = Some (MData (VNum 5))
  ∧ Refactored.useAsyncDataWrapper shadowed_a 0%nat
    = Throw (TypeError "bind is not a function")
  ∧ IndexTs.useAsyncDataWrapper shadowed_a 0%nat
    = Ok ({| wr_id := 0; wr_members := ∅ |}, 1%nat)
  ∧ IndexTs.useAsyncDataWrapper no_prototype 0%nat
    = Throw (TypeError "Cannot convert undefined or null to object")
  ∧ Refactored.useAsyncDataWrapper no_prototype 0%nat
    = Ok ({| wr_id := 0; wr_members := ∅ |}, 1%nat)
  ∧ Refactored.useAsyncDataWrapper data_only 0%nat
    = Ok ({| wr_id := 0; wr_members := ∅ |}, 1%nat)
  ∧ IndexTs.functionNames data_only
    = Ok ["__defineGetter__"; "__defineSetter__"; "hasOwnProperty";
          "__lookupGetter__"; "__lookupSetter__"; "isPrototypeOf";
          "propertyIsEnumerable"; "toString"; "valueOf"; "toLocaleString"].
Proof. repeat split; vm_compute; reflexivity. Qed.

(** The object literal of the doc comment of [useAsyncDataWrapper]: the
    refactored version wraps its two functions; [src/index.ts] wraps
    neither, and wraps the builtin methods of [Object.prototype]. *)
Example documented_object_literal :
  Refactored.getFunctionNames literal_service = ["fetchData"; "getItem"]
  ∧ has_member (IndexTs.useAsyncDataWrapper literal_service 0%nat)
      "fetchData" = false
  ∧ has_member (IndexTs.useAsyncDataWrapper literal_service 0%nat)
      "getItem" = false
  ∧ has_member (IndexTs.useAsyncDataWrapper literal_service 0%nat)
      "hasOwnProperty" = true.
Proof. repeat split; vm_compute; reflexivity. Qed.

(** C5, where there is no wrapper to call.  The object literal of the
    documentation has the member [fetchData], a function declaring no
    parameter; [src/index.ts] builds no wrapper for it, so the call
    [wrapped.fetchData()] registers nothing, where the refactored version
    registers under the key [fetchData].  On an instance with a method [f]
    beside a shadowed method the refactored version throws while it wraps,
    so there is no [wrapped.f] to call, where [src/index.ts] registers
    under the key [f]. *)
Lemma no_wrapper_to_call_without_arguments :
  lookup_chain literal_service "fetchData" = Some (MFun fetchData)
  ∧ fn_length fetchData = 0%nat
  ∧ has_member (IndexTs.useAsyncDataWrapper literal_service 0%nat)
      "fetchData" = false
  ∧ key_of_member_call (IndexTs.useAsyncDataWrapper literal_service 0%nat)
      "fetchData" [] st0 = None
  ∧ key_of_member_call (Refactored.useAsyncDataWrapper literal_service 0%nat)
      "fetchData" [] st0 = Some "fetchData"
  ∧ lookup_chain shadowed_beside_f "f" = Some (MFun fetchData)
  ∧ Refactored.useAsyncDataWrapper shadowed_beside_f 0%nat
    = Throw (TypeError "bind is not a function")
  ∧ key_of_member_call (Refactored.useAsyncDataWrapper shadowed_beside_f 0%nat)
      "f" [] st0 = None
  ∧ key_of_member_call (IndexTs.useAsyncDataWrapper shadowed_beside_f 0%nat)
      "f" [] st0 = Some "f".
Proof. repeat split; vm_compute; reflexivity. Qed.

(** ** When wrapping completes *)

(** [src/index.ts] fails only while it reads the names: on [null], or on
    an object without prototype.  The names it keeps are functions on the
    source object, so the loop completes. *)
Lemma IndexTs_completes (obj : jsobj) (n : nat) :
  match IndexTs.functionNames obj with
  | Ok names =>
      ∃ w, IndexTs.useAsyncDataWrapper obj n
           = Ok (w, (S n + length names)%nat)
  | Throw e =>
      IndexTs.useAsyncDataWrapper obj n = Throw e
      ∧ (obj = Null ∨ getPrototypeOf obj = Ok Null)
  end.
Proof.
  rewrite IndexTs_build.
  destruct (IndexTs.functionNames obj) as [names|e] eqn:Hnames.
  - apply build_completes.
    unfold IndexTs.functionNames in Hnames.
    destruct (getPrototypeOf obj) as [proto|]; [|discriminate].
    simpl in Hnames.
    destruct (getOwnPropertyNames proto) as [keys|]; [|discriminate].
    injection Hnames as <-.
    apply Forall_forall. intros key Hkey.
    apply list_elem_of_In, List.filter_In in Hkey as [_ Hkey].
    unfold IndexTs.is_function_name in Hkey.
    by apply andb_true_iff in Hkey as [_ Hkey].
  - split; [reflexivity|].
    destruct obj as [|own|own [|pown|pown anc]]; auto; discriminate.
Qed.

(** The refactored version fails exactly when a name it found is not a
    function on the source object. *)
Lemma Refactored_fails_iff (obj : jsobj) (n : nat) :
  (∃ e, Refactored.useAsyncDataWrapper obj n = Throw e)
  ↔ ∃ key, key ∈ Refactored.getFunctionNames obj
           ∧ typeof_function (lookup_chain obj key) = false.
Proof.
  rewrite Refactored_build. split.
  - intros [e He].
    destruct (decide (Forall
                (λ key, typeof_function (lookup_chain obj key) = true)
                (Refactored.getFunctionNames obj))) as [Hall|Hnot].
    + destruct (build_completes Refactored.getWrappedFunction obj _ n Hall)
        as [w Hw]. congruence.
    + apply not_Forall_Exists in Hnot; [|intros key; apply _].
      apply Exists_exists in Hnot as (key & Hkey & Hf).
      exists key. split; [exact Hkey|]. by apply not_true_is_false.
  - intros (key & Hkey & Hf).
    destruct (build Refactored.getWrappedFunction obj
                (Refactored.getFunctionNames obj) n) as [[w n']|e] eqn:Hb;
      [|eauto].
    apply build_inv in Hb as (_ & _ & Hall & _).
    rewrite Forall_forall in Hall. specialize (Hall key Hkey). congruence.
Qed.


(** * Further properties *)

(** ** The names found along the chain *)

Lemma filter_filter_and {A : Type} (p q : A → bool) (l : list A) :
  List.filter p (List.filter q l) = List.filter (fun x => q x && p x) l.
Proof.
  induction l as [|x l IH]; simpl; [reflexivity|].
  destruct (q x); simpl; [destruct (p x)|]; by rewrite IH.
Qed.

Lemma not_in_app (s t : list string) (key : string) :
  not_in (s ++ t) key = not_in s key && not_in t key.
Proof.
  unfold not_in. rewrite <- negb_orb, <- bool_decide_or. f_equal.
  apply bool_decide_ext, elem_of_app.
Qed.

Lemma not_in_true (s : list string) (key : string) :
  not_in s key = true ↔ key ∉ s.
Proof.
  unfold not_in. by rewrite negb_true_iff, bool_decide_eq_false.
Qed.

(** Collecting into a set [s] is collecting into the empty set, behind
    [s], without what [s] already holds. *)
Lemma collect_fold_behind (current : jsobj) (keys s : list string) :
  fold_left (Refactored.collect current) keys s
  = (s ++ List.filter (not_in s)
            (fold_left (Refactored.collect current) keys []))%list.
Proof.
  revert s. induction keys as [|k keys IH]; intros s; simpl.
  { by rewrite app_nil_r. }
  unfold Refactored.collect at 2 4.
  destruct (negb (String.eqb k "constructor")
            && typeof_function (lookup_chain current k)); [|apply IH].
  change (Set_add k []) with [k].
  rewrite (IH [k]). simpl.
  unfold Set_add. destruct (bool_decide (k ∈ s)) eqn:Hk.
  - replace (not_in s k) with false by (unfold not_in; by rewrite Hk).
    rewrite IH. f_equal. rewrite filter_filter_and.
    apply List.filter_ext. intros x.
    destruct (not_in s x) eqn:Hx; [|by rewrite andb_false_r].
    rewrite andb_true_r. symmetry. apply not_in_true.
    apply not_in_true in Hx. apply bool_decide_eq_true in Hk.
    intros ->%list_elem_of_singleton. contradiction.
  - replace (not_in s k) with true by (unfold not_in; by rewrite Hk).
    rewrite IH, <- app_assoc. simpl. do 2 f_equal.
    rewrite filter_filter_and.
    apply List.filter_ext. intros x.
    rewrite not_in_app. apply andb_comm.
Qed.

Lemma walk_behind (o : jsobj) (s : list string) :
  Refactored.walk s o
  = (s ++ List.filter (not_in s) (Refactored.walk [] o))%list.
Proof.
  revert s. induction o as [|own|own proto IH]; intros s; simpl;
    try by rewrite app_nil_r.
  rewrite (IH (fold_left _ _ s)), (IH (fold_left _ _ [])).
  rewrite (collect_fold_behind _ _ s).
  set (L0 := fold_left (Refactored.collect (Obj own proto)) (map fst own) []).
  set (W := Refactored.walk [] proto).
  rewrite List.filter_app, <- app_assoc. do 2 f_equal.
  rewrite filter_filter_and.
  apply List.filter_ext. intros x.
  rewrite not_in_app.
  destruct (not_in s x) eqn:Hx; simpl; [|by rewrite andb_false_r].
  rewrite andb_true_r. unfold not_in in *. f_equal.
  apply bool_decide_ext.
  rewrite !list_elem_of_In, List.filter_In, <- !list_elem_of_In.
  rewrite Hx. tauto.
Qed.

Lemma own_level_names (own : list (string * member)) (proto : jsobj) :
  NoDup (map fst own) →
  fold_left (Refactored.collect (Obj own proto)) (map fst own) []
  = own_function_names own.
Proof.
  intros Hnd.
  rewrite collect_fold_filter;
    [|exact Hnd|intros ? ?; apply not_elem_of_nil].
  rewrite app_nil_l. apply List.filter_ext_in.
  intros key Hkey%list_elem_of_In. by rewrite lookup_chain_own.
Qed.

(** X1: [getFunctionNames] returns, each once, exactly the names other
    than [constructor] that some object of the chain, from the source
    object up to but not including [Object.prototype], has as a
    function-valued own property.  For [null] and for [Object.prototype]
    itself it returns no name. *)
Theorem getFunctionNames_finds_declared_functions (obj : jsobj) :
  NoDup (Refactored.getFunctionNames obj)
  ∧ (∀ key, key ∈ Refactored.getFunctionNames obj
            ↔ key ≠ "constructor" ∧ declares obj key)
  ∧ Refactored.getFunctionNames Null = []
  ∧ ∀ root, Refactored.getFunctionNames (ObjectPrototype root) = [].
Proof.
  destruct (getFunctionNames_spec obj) as [Hnd Hin].
  repeat split; try done; by apply Hin.
Qed.

(** X2: the names come nearest first.  For an object with distinct own
    property names, [getFunctionNames] lists the function names of the
    object itself, in own-property order, and then the names found from its
    prototype on that the object does not have itself. *)
Theorem getFunctionNames_nearest_first (own : list (string * member))
    (proto : jsobj) :
  NoDup (map fst own) →
  Refactored.getFunctionNames (Obj own proto)
  = (own_function_names own
     ++ List.filter (not_in (own_function_names own))
          (Refactored.getFunctionNames proto))%list.
Proof.
  intros Hnd. unfold Refactored.getFunctionNames.
  change (Refactored.walk [] (Obj own proto))
    with (Refactored.walk
            (fold_left (Refactored.collect (Obj own proto)) (map fst own) [])
            proto).
  rewrite walk_behind. by rewrite own_level_names.
Qed.

Lemma getFunctionNames_nearest_first_witness :
  NoDup ["constructor"; "a"; "c"]
  ∧ Refactored.getFunctionNames Child_prototype = ["a"; "c"]
  ∧ Refactored.getFunctionNames Base_prototype = ["a"].
Proof.
  assert (NoDup ["constructor"; "a"; "c"]) as Hnd
    by (apply (bool_decide_unpack _); vm_compute; exact I).
  split; [exact Hnd|]. split; [|reflexivity].
  exact (eq_trans
           (getFunctionNames_nearest_first
              [("constructor", MFun (async_fn 0 VUndefined));
               ("a", MFun (async_fn 0 (VNum 3)));
               ("c", MFun (async_fn 0 (VNum 4)))] Base_prototype Hnd)
           eq_refl).
Defined.

(** ** What gets a wrapper *)

Lemma IndexTs_names_inv (obj : jsobj) (names : list string) :
  IndexTs.functionNames obj = Ok names →
  ∃ proto keys,
    getPrototypeOf obj = Ok proto
    ∧ getOwnPropertyNames proto = Ok keys
    ∧ names = List.filter (IndexTs.is_function_name obj) keys.
Proof.
  unfold IndexTs.functionNames.
  destruct (getPrototypeOf obj) as [proto|] eqn:Hp; [|discriminate]. simpl.
  destruct (getOwnPropertyNames proto) as [keys|] eqn:Hk; [|discriminate].
  intros [= <-]. exists proto, keys. auto.
Qed.

Lemma IndexTs_name_is_function (obj : jsobj) (names : list string)
    (key : string) :
  IndexTs.functionNames obj = Ok names → key ∈ names →
  key ≠ "constructor" ∧ typeof_function (lookup_chain obj key) = true.
Proof.
  intros H Hkey.
  apply IndexTs_names_inv in H as (proto & keys & _ & _ & ->).
  apply list_elem_of_In, List.filter_In in Hkey as [_ Hkey].
  unfold IndexTs.is_function_name in Hkey.
  apply andb_true_iff in Hkey as [Hc Hf].
  apply negb_true_iff, String.eqb_neq in Hc. by split.
Qed.

(** X3: neither version ever wraps [constructor]: whatever the source
    object, a wrapped object has no member of that name. *)
Theorem constructor_is_never_wrapped (obj : jsobj) (n n' : nat)
    (w : wrapped) :
  Refactored.useAsyncDataWrapper obj n = Ok (w, n')
  ∨ IndexTs.useAsyncDataWrapper obj n = Ok (w, n') →
  wr_members w !! "constructor" = None.
Proof.
  intros H. apply eq_None_not_Some. intros Hsome. destruct H as [H|H].
  - rewrite Refactored_build in H.
    apply build_inv in H as (_ & _ & _ & Hdom & _).
    apply Hdom, getFunctionNames_spec in Hsome as [Hc _]. by apply Hc.
  - rewrite IndexTs_build in H.
    destruct (IndexTs.functionNames obj) as [names|e] eqn:Hnames;
      [|discriminate].
    apply build_inv in H as (_ & _ & _ & Hdom & _).
    apply Hdom in Hsome.
    destruct (IndexTs_name_is_function _ _ _ Hnames Hsome) as [Hc _].
    by apply Hc.
Qed.

Lemma constructor_is_never_wrapped_witness :
  ∃ w n', IndexTs.useAsyncDataWrapper new_Child 0%nat = Ok (w, n')
          ∧ lookup_chain new_Child "constructor"
            = Some (MFun (async_fn 0 VUndefined))
          ∧ wr_members w !! "constructor" = None.
Proof.
  do 2 eexists.
  split; [lazy -[IndexTs.wrapped_function]; reflexivity|].
  split; [reflexivity|].
  exact (constructor_is_never_wrapped new_Child 0%nat _ _
           (or_intror eq_refl)).
Defined.

(** X4: when the refactored version completes, the members of the wrapped
    object are exactly the names [getFunctionNames] found, one member per
    name. *)
Theorem one_wrapper_per_name_found (obj : jsobj) (n n' : nat) (w : wrapped) :
  Refactored.useAsyncDataWrapper obj n = Ok (w, n') →
  dom (wr_members w) = list_to_set (Refactored.getFunctionNames obj)
  ∧ size (wr_members w) = length (Refactored.getFunctionNames obj).
Proof.
  rewrite Refactored_build. intros H.
  apply build_inv in H as (_ & _ & _ & Hdom & _).
  assert (dom (wr_members w)
          = list_to_set (Refactored.getFunctionNames obj)) as Hd.
  { apply set_eq. intros key.
    by rewrite elem_of_dom, Hdom, elem_of_list_to_set. }
  split; [exact Hd|].
  rewrite <- size_dom, Hd.
  apply size_list_to_set, getFunctionNames_spec.
Qed.

Lemma one_wrapper_per_name_found_witness :
  ∃ w n', Refactored.useAsyncDataWrapper new_Child 0%nat = Ok (w, n')
          ∧ Refactored.getFunctionNames new_Child = ["a"; "c"]
          ∧ size (wr_members w) = 2%nat.
Proof.
  do 2 eexists.
  split; [lazy -[Refactored.getWrappedFunction]; reflexivity|].
  split; [reflexivity|].
  exact (proj2 (one_wrapper_per_name_found new_Child 0%nat _ _ eq_refl)).
Defined.

(** ** When wrapping throws *)

Lemma for_of_throws_TypeError
    (mk : string → func → list arg → store → result fetch_call)
    (obj : jsobj) (names : list string) :
  ∀ members n e,
    for_of names (wrap_with mk obj) members n = Throw e →
    ∃ msg, e = TypeError msg.
Proof.
  induction names as [|key names IH]; intros members n e; [discriminate|].
  rewrite for_of_cons.
  destruct (typeof_function (lookup_chain obj key)) eqn:Hf.
  - destruct (lookup_chain obj key) as [[v|f]|] eqn:Hl; try discriminate.
    rewrite (wrap_with_function _ _ _ _ _ _ Hl). apply IH.
  - destruct (wrap_with_no_function mk obj members key n Hf) as [msg ->].
    intros [= <-]. eauto.
Qed.

(** X5: when a name that [getFunctionNames] found does not read as a
    function on the source object, because a data property nearer in the
    chain shadows the method, the refactored version throws the [TypeError]
    of the failed [obj[functionName].bind(obj)] and returns no wrapped
    object. *)
Theorem refactored_throws_on_shadowed_method (obj : jsobj) (n : nat)
    (key : string) :
  key ∈ Refactored.getFunctionNames obj →
  typeof_function (lookup_chain obj key) = false →
  ∃ msg, Refactored.useAsyncDataWrapper obj n = Throw (TypeError msg).
Proof.
  intros Hkey Hf.
  destruct (proj2 (Refactored_fails_iff obj n)) as [e He]; [eauto|].
  pose proof He as Hrun. rewrite Refactored_build, build_unfold in Hrun.
  destruct (for_of _ _ _ _) as [[m n']|e'] eqn:Hloop; [discriminate|].
  injection Hrun as <-.
  destruct (for_of_throws_TypeError _ _ _ _ _ _ Hloop) as [msg ->].
  eauto.
Qed.

Lemma refactored_throws_on_shadowed_method_witness :
  ("a" ∈ Refactored.getFunctionNames shadowed_a)
  ∧ typeof_function (lookup_chain shadowed_a "a") = false
  ∧ ∃ msg, Refactored.useAsyncDataWrapper shadowed_a 0%nat
           = Throw (TypeError msg).
Proof.
  assert ("a" ∈ Refactored.getFunctionNames shadowed_a) as Hin
    by (apply (bool_decide_unpack _); vm_compute; exact I).
  split; [exact Hin|]. split; [reflexivity|].
  exact (refactored_throws_on_shadowed_method shadowed_a 0%nat "a"
           Hin eq_refl).
Defined.

(** X6: [src/index.ts] throws on [null] and on an object whose prototype
    is [null], with the [TypeError] of [Object.getPrototypeOf] or of
    [Object.getOwnPropertyNames]. *)
Theorem index_ts_throws_without_prototype (obj : jsobj) (n : nat) :
  obj = Null ∨ getPrototypeOf obj = Ok Null →
  IndexTs.useAsyncDataWrapper obj n
  = Throw (TypeError "Cannot convert undefined or null to object").
Proof.
  intros [->|Hp]; [reflexivity|].
  rewrite IndexTs_build. unfold IndexTs.functionNames. rewrite Hp.
  reflexivity.
Qed.

Lemma index_ts_throws_without_prototype_witness :
  getPrototypeOf no_prototype = Ok Null
  ∧ IndexTs.useAsyncDataWrapper no_prototype 0%nat
    = Throw (TypeError "Cannot convert undefined or null to object").
Proof.
  split; [reflexivity|].
  exact (index_ts_throws_without_prototype no_prototype 0%nat
           (or_intror eq_refl)).
Defined.

(** ** Calls of a wrapper *)

(** X7: in a call whose first argument is an options object, both versions
    register under the bare name with exactly that object as configuration:
    no entry is added, none is dropped, and there is no [watch] unless the
    caller gave one.  The handler calls the original function with no
    argument, and further arguments of the call are ignored. *)
Theorem options_pass_through_unchanged (name : string) (f : func)
    (o : gmap string optval) (rest : list arg) (st : store) :
  ∃ c, Refactored.getWrappedFunction name f (ArgOptions o :: rest) st = Ok c
       ∧ IndexTs.wrapped_function name f (ArgOptions o :: rest) st = Ok c
       ∧ Refactored.getWrappedFunction name f [ArgOptions o] st = Ok c
       ∧ fc_key c = name
       ∧ fc_config c = o
       ∧ ∀ st', fc_handler c st'
                = (r ← fn_call f st' []; mret (ensure_promise r)).
Proof.
  eexists. repeat split; try reflexivity.
  simpl. rewrite spread_after_union. simpl. apply (right_id_L ∅ (∪)).
Qed.

(** X8: a wrapper call never runs the original function: the key, the
    configuration and the exception of a call are the same whatever the
    original function is, also for one that throws whenever it is called.
    Only the handler, which the primitive runs, calls it. *)
Theorem wrapper_call_does_not_run_the_function (name : string)
    (f g : func) (args : list arg) (st : store) :
  registration (Refactored.getWrappedFunction name f args st)
  = registration (Refactored.getWrappedFunction name g args st)
  ∧ registration (IndexTs.wrapped_function name f args st)
    = registration (IndexTs.wrapped_function name (inert g) args st).
Proof.
  rewrite !wrapped_function_same.
  unfold Refactored.getWrappedFunction,
    Refactored.getWrappedFunctionWithArgs.
  destruct (arg_at args 0) as [|s|o]; try (split; reflexivity).
  destruct (s st); split; reflexivity.
Qed.

(** ** The two enumerations side by side *)

Lemma own_function_intro (own : list (string * member)) (key : string)
    (m : member) :
  assoc key own = Some m → typeof_function (Some m) = true →
  own_function own key = true.
Proof.
  intros Hm Hf. unfold own_function. rewrite Hm, Hf, andb_true_r.
  apply bool_decide_eq_true, assoc_elem. eauto.
Qed.

(** X9: on a source object whose direct prototype is an ordinary object,
    every wrapper that [src/index.ts] builds the refactored version builds
    too whenever it returns, under the same name and doing the same on
    every call; and it does return when no method it found is shadowed. *)
Theorem refactored_keeps_the_wrappers_of_index_ts
    (own pown : list (string * member)) (anc : jsobj) (n m n1 : nat)
    (w1 : wrapped) (name : string) (wf1 : wrapper) :
  IndexTs.useAsyncDataWrapper (Obj own (Obj pown anc)) n = Ok (w1, n1) →
  wr_members w1 !! name = Some wf1 →
  (∀ w2 n2,
     Refactored.useAsyncDataWrapper (Obj own (Obj pown anc)) m
     = Ok (w2, n2) →
     ∃ wf2, wr_members w2 !! name = Some wf2
            ∧ ∀ args st, w_call wf1 args st = w_call wf2 args st)
  ∧ (methods_unshadowed (Obj own (Obj pown anc)) = true →
     ∃ w2 n2 wf2,
       Refactored.useAsyncDataWrapper (Obj own (Obj pown anc)) m
       = Ok (w2, n2)
       ∧ wr_members w2 !! name = Some wf2
       ∧ ∀ args st, w_call wf1 args st = w_call wf2 args st).
Proof.
  set (obj := Obj own (Obj pown anc)). intros H1 Hwf1.
  assert (name ∈ Refactored.getFunctionNames obj) as Hname.
  { pose proof H1 as H1'. rewrite IndexTs_build in H1'.
    destruct (IndexTs.functionNames obj) as [names|e] eqn:Hnames;
      [|discriminate].
    apply build_inv in H1' as (_ & _ & _ & Hdom & _).
    assert (name ∈ names) as Hin by (apply Hdom; eauto).
    destruct (IndexTs_name_is_function _ _ _ Hnames Hin) as [Hc Hf].
    apply IndexTs_names_inv in Hnames as (proto & keys & Hp & Hk & ->).
    injection Hp as <-. injection Hk as <-.
    apply list_elem_of_In, List.filter_In in Hin as [Hin%list_elem_of_In _].
    apply getFunctionNames_spec. split; [exact Hc|].
    simpl in Hf. simpl.
    destruct (assoc name own) as [m0|] eqn:Hm.
    - left. by eapply own_function_intro.
    - right. left. apply assoc_elem in Hin as [m1 Hm1].
      rewrite Hm1 in Hf. by eapply own_function_intro. }
  assert (∀ w2 n2,
            Refactored.useAsyncDataWrapper obj m = Ok (w2, n2) →
            ∃ wf2, wr_members w2 !! name = Some wf2
                   ∧ ∀ args st, w_call wf1 args st = w_call wf2 args st)
    as Hsame.
  { intros w2 n2 H2.
    pose proof H2 as H2'. rewrite Refactored_build in H2'.
    apply build_inv in H2' as (_ & _ & _ & Hdom2 & _).
    destruct (proj2 (Hdom2 name) Hname) as [wf2 Hwf2].
    exists wf2. split; [exact Hwf2|]. intros args st.
    destruct (wrapped_by_either_version obj n _ w1 (or_intror H1) _ _ Hwf1)
      as (f1 & Hf1 & ->).
    destruct (wrapped_by_either_version obj m _ w2 (or_introl H2) _ _ Hwf2)
      as (f2 & Hf2 & ->).
    congruence. }
  split; [exact Hsame|].
  intros Hall%methods_unshadowed_Forall.
  destruct (build_completes Refactored.getWrappedFunction obj _ m Hall)
    as [w2 Hw2].
  rewrite <- Refactored_build in Hw2.
  destruct (Hsame _ _ Hw2) as (wf2 & Hwf2 & Hcalls).
  eexists w2, _, wf2. eauto.
Qed.

Lemma refactored_keeps_the_wrappers_of_index_ts_witness :
  ∃ w1 n1 wf1,
    IndexTs.useAsyncDataWrapper new_Derived 0%nat = Ok (w1, n1)
    ∧ wr_members w1 !! "b" = Some wf1
    ∧ methods_unshadowed new_Derived = true
    ∧ ∃ w2 n2 wf2,
        Refactored.useAsyncDataWrapper new_Derived 7%nat = Ok (w2, n2)
        ∧ wr_members w2 !! "b" = Some wf2
        ∧ ∀ args st, w_call wf1 args st = w_call wf2 args st.
Proof.
  assert (methods_unshadowed new_Derived = true) as Hall
    by (vm_compute; reflexivity).
  do 3 eexists.
  split; [lazy -[IndexTs.wrapped_function]; reflexivity|].
  split; [lazy -[IndexTs.wrapped_function]; reflexivity|].
  split; [exact Hall|].
  exact (proj2 (refactored_keeps_the_wrappers_of_index_ts
                  []
                  [("constructor", MFun (async_fn 0 VUndefined));
                   ("b", MFun (async_fn 0 (VNum 2)))]
                  Base_prototype 0%nat 7%nat _ _ "b" _
                  eq_refl eq_refl) Hall).
Defined.

(** X10: a method that is an own property of the source object, under a
    name other than [constructor] that the direct prototype does not have
    as an own property, has no wrapper in [src/index.ts], which returns
    without it; it has one in the refactored version whenever that one
    returns, and it does return when no method it found is shadowed.  This
    is so for the methods of an object literal (whose prototype is
    [Object.prototype]) and for the function-valued fields of an
    instance. *)
Theorem own_methods_wrapped_by_refactored_only
    (own : list (string * member)) (proto : jsobj) (keys : list string)
    (key : string) (f : func) (n m : nat) :
  assoc key own = Some (MFun f) → key ≠ "constructor" →
  getOwnPropertyNames proto = Ok keys → key ∉ keys →
  (∃ w1 n1, IndexTs.useAsyncDataWrapper (Obj own proto) n = Ok (w1, n1)
            ∧ wr_members w1 !! key = None)
  ∧ (∀ w2 n2,
       Refactored.useAsyncDataWrapper (Obj own proto) m = Ok (w2, n2) →
       is_Some (wr_members w2 !! key))
  ∧ (methods_unshadowed (Obj own proto) = true →
     ∃ w2 n2, Refactored.useAsyncDataWrapper (Obj own proto) m = Ok (w2, n2)
              ∧ is_Some (wr_members w2 !! key)).
Proof.
  set (obj := Obj own proto). intros Hf Hc Hkeys Hnot.
  assert (∀ w2 n2,
            Refactored.useAsyncDataWrapper obj m = Ok (w2, n2) →
            is_Some (wr_members w2 !! key)) as Hhas.
  { intros w2 n2 H2. rewrite Refactored_build in H2.
    apply build_inv in H2 as (_ & _ & _ & Hdom & _).
    apply Hdom, getFunctionNames_spec. split; [exact Hc|].
    simpl. left. by eapply own_function_intro. }
  split; [|split; [exact Hhas|]].
  - pose proof (IndexTs_completes obj n) as H1.
    destruct (IndexTs.functionNames obj) as [names|e] eqn:Hnames.
    + destruct H1 as [w1 H1]. eexists w1, _. split; [exact H1|].
      apply eq_None_not_Some. intros Hsome.
      rewrite IndexTs_build, Hnames in H1.
      apply build_inv in H1 as (_ & _ & _ & Hdom & _).
      apply Hdom in Hsome.
      apply IndexTs_names_inv in Hnames as (proto' & keys' & Hp & Hk & ->).
      injection Hp as <-. rewrite Hkeys in Hk. injection Hk as <-.
      by apply list_elem_of_In, List.filter_In in Hsome
        as [Hin%list_elem_of_In _].
    + unfold IndexTs.functionNames in Hnames. simpl in Hnames.
      rewrite Hkeys in Hnames. discriminate.
  - intros Hall%methods_unshadowed_Forall.
    destruct (build_completes Refactored.getWrappedFunction obj _ m Hall)
      as [w2 Hw2].
    rewrite <- Refactored_build in Hw2.
    eexists w2, _. split; [exact Hw2|]. by eapply Hhas.
Qed.

Lemma own_methods_wrapped_by_refactored_only_witness :
  assoc "f" [("f", MFun fetchData)] = Some (MFun fetchData)
  ∧ "f" ≠ "constructor"
  ∧ ("f" ∉ ["constructor"; "toString"])
  ∧ methods_unshadowed literal_f = true
  ∧ (∃ w1 n1, IndexTs.useAsyncDataWrapper literal_f 0%nat = Ok (w1, n1)
              ∧ wr_members w1 !! "f" = None)
  ∧ ∃ w2 n2, Refactored.useAsyncDataWrapper literal_f 0%nat = Ok (w2, n2)
             ∧ is_Some (wr_members w2 !! "f").
Proof.
  assert ("f" ≠ "constructor") as Hc by discriminate.
  assert ("f" ∉ ["constructor"; "toString"]) as Hroot
    by (apply (bool_decide_unpack _); vm_compute; exact I).
  assert (methods_unshadowed literal_f = true) as Hall
    by (vm_compute; reflexivity).
  split; [reflexivity|]. split; [exact Hc|]. split; [exact Hroot|].
  split; [exact Hall|].
  destruct (own_methods_wrapped_by_refactored_only
              [("f", MFun fetchData)]
              (ObjectPrototype
                 [("constructor", builtin 1); ("toString", builtin 0)])
              ["constructor"; "toString"]
              "f" fetchData 0%nat 0%nat
              eq_refl Hc eq_refl Hroot) as (H1 & _ & H2).
  split; [exact H1|]. exact (H2 Hall).
Defined.

(** ** What the refactored enumeration does not read *)

Lemma collect_fold_ext (c1 c2 : jsobj) (keys s : list string) :
  (∀ key, key ∈ keys →
          typeof_function (lookup_chain c1 key)
          = typeof_function (lookup_chain c2 key)) →
  fold_left (Refactored.collect c1) keys s
  = fold_left (Refactored.collect c2) keys s.
Proof.
  revert s. induction keys as [|k keys IH]; intros s Hext; simpl;
    [reflexivity|].
  unfold Refactored.collect at 2 4. rewrite (Hext k) by left.
  apply IH. intros key Hkey. apply Hext. by right.
Qed.

Lemma walk_with_root (root : list (string * member)) (o : jsobj)
    (s : list string) :
  Refactored.walk s (with_root root o) = Refactored.walk s o.
Proof.
  revert s. induction o as [|own|own proto IH]; intros s; simpl; auto.
  rewrite IH. f_equal. apply collect_fold_ext. intros key Hkey.
  by rewrite !lookup_chain_own.
Qed.

(** A name declared below [Object.prototype] is read below it. *)
Lemma lookup_below_root (root : list (string * member)) (o : jsobj)
    (key : string) :
  declares o key →
  lookup_chain (with_root root o) key = lookup_chain o key.
Proof.
  induction o as [|own|own proto IH]; simpl; try tauto.
  intros [Hown|Hd].
  - unfold own_function in Hown.
    apply andb_true_iff in Hown as [_ Hf].
    by destruct (assoc key own).
  - destruct (assoc key own); auto.
Qed.

(** X11: [getFunctionNames] does not read [Object.prototype]: with any
    other own properties on [Object.prototype] it finds the same names, and
    each name it finds reads the same on the source object. *)
Theorem getFunctionNames_ignores_Object_prototype
    (root : list (string * member)) (obj : jsobj) :
  Refactored.getFunctionNames (with_root root obj)
  = Refactored.getFunctionNames obj
  ∧ ∀ key, key ∈ Refactored.getFunctionNames obj →
           lookup_chain (with_root root obj) key = lookup_chain obj key.
Proof.
  split; [apply walk_with_root|].
  intros key [_ Hd]%getFunctionNames_spec.
  by apply lookup_below_root.
Qed.

(** ** Keys of different wrappers *)

Lemma dash_boundary (p q r r' : string) :
  dash_free p = true → dash_free q = true →
  p +:+ String "-" r = q +:+ String "-" r' → p = q ∧ r = r'.
Proof.
  revert q. induction p as [|c p IH]; intros [|d q] Hp Hq; simpl.
  - by intros [= ->].
  - intros [= <- _]. discriminate.
  - intros [= -> _]. discriminate.
  - intros [= -> E]. simpl in Hp, Hq.
    apply andb_true_iff in Hp as [_ Hp]. apply andb_true_iff in Hq as [_ Hq].
    destruct (IH q Hp Hq E) as [-> ->]. auto.
Qed.

Lemma dash_free_no_dash (p r : string) :
  dash_free (p +:+ String "-" r) = false.
Proof.
  induction p as [|c p IH]; simpl; [reflexivity|].
  rewrite IH. apply andb_false_r.
Qed.

(** X13: for function names without a dash, as all identifier names are,
    the keys of calls with an argsSupplier keep the wrappers apart: two
    calls of wrappers of different names never register under the same key,
    and the key of a call with an argsSupplier is never the bare name under
    which a call without one registers. *)
Theorem keys_keep_wrappers_apart (name1 name2 : string) (f1 f2 : func)
    (args1 args2 args3 : list arg) (s1 s2 : supplier) (st1 st2 st3 : store)
    (a1 a2 : list jsval) :
  dash_free name1 = true → dash_free name2 = true →
  arg_at args1 0 = ArgFun s1 → s1 st1 = Ok a1 →
  arg_at args2 0 = ArgFun s2 → s2 st2 = Ok a2 →
  variant_of_call args3 = Simple →
  (name1 ≠ name2 →
   registered_key (Refactored.getWrappedFunction name1 f1 args1 st1)
   ≠ registered_key (Refactored.getWrappedFunction name2 f2 args2 st2))
  ∧ registered_key (Refactored.getWrappedFunction name1 f1 args1 st1)
    ≠ registered_key (Refactored.getWrappedFunction name2 f2 args3 st3)
  ∧ registered_key (IndexTs.wrapped_function name1 f1 args1 st1)
    = registered_key (Refactored.getWrappedFunction name1 f1 args1 st1).
Proof.
  intros Hd1 Hd2 H1 Ha1 H2 Ha2 H3.
  rewrite (key_with_supplier _ _ _ _ _ _ H1 Ha1).
  rewrite (key_with_supplier _ _ _ _ _ _ H2 Ha2).
  rewrite (call_without_supplier _ _ _ _ H3).
  split; [|split].
  - intros Hne [= E]. by apply dash_boundary in E as [? _].
  - simpl. intros [= E]. rewrite <- E, dash_free_no_dash in Hd2. discriminate.
  - rewrite wrapped_function_same. by eapply key_with_supplier.
Qed.

Lemma keys_keep_wrappers_apart_witness :
  dash_free "fetchData" = true
  ∧ dash_free "getItem" = true
  ∧ supply_5 st0 = Ok [VNum 5]
  ∧ variant_of_call [] = Simple
  ∧ "fetchData" ≠ "getItem"
  ∧ registered_key
      (Refactored.getWrappedFunction "fetchData" fetchData
         [ArgFun supply_5] st0)
    ≠ registered_key
        (Refactored.getWrappedFunction "getItem" getItem
           [ArgFun supply_5] st0)
  ∧ registered_key
      (Refactored.getWrappedFunction "fetchData" fetchData
         [ArgFun supply_5] st0)
    ≠ registered_key
        (Refactored.getWrappedFunction "getItem" getItem [] st0).
Proof.
  assert ("fetchData" ≠ "getItem") as Hne by discriminate.
  do 4 (split; [reflexivity|]). split; [exact Hne|].
  destruct (keys_keep_wrappers_apart "fetchData" "getItem" fetchData getItem
              [ArgFun supply_5] [ArgFun supply_5] [] supply_5 supply_5
              st0 st0 st0 [VNum 5] [VNum 5]
              eq_refl eq_refl eq_refl eq_refl eq_refl eq_refl eq_refl)
    as (Hdiff & Hbare & _).
  split; [exact (Hdiff Hne)|exact Hbare].
Defined.
